(** * Feed analyzer: the validation and analysis engine of the analyze route

    A shallow embedding of [validateFeedXML] and of the analysis part of
    [POST] (the route handler of the feed analyzer), with the properties of
    the engine stated and proved over it.

    Conventions of the embedding.
    - A JavaScript string is a [string]: a sequence of code units, here the
      code units 0..255.  [length], [startsWith], [includes], [trim] and the
      regular expressions of the source are defined on that representation.
    - An optional property of a parsed item is an [option]; JavaScript
      truthiness of such a property ([undefined] and the empty string are
      falsy) is [truthy].
    - JavaScript numbers are IEEE 754 binary64 values, taken from
      [SpecFloat] (precision 53, maximal exponent 1024).
    - [new Date(s)] and [Date.prototype.toLocaleString] belong to the
      JavaScript runtime: they are parameters ([parseDate], [formatDate]).
    - The feed parser (the rss-parser package) is an external library: its
      outcome is an input of the handler. *)

From Stdlib Require Import Bool Arith ZArith Lia List Ascii String.
From Stdlib Require Import DecimalString Permutation Sorted.
From Stdlib Require Import SpecFloat.
Import ListNotations.

Local Open Scope string_scope.
Local Open Scope list_scope.

(* ================================================================== *)
(** ** JavaScript strings *)

Module JsString.

(** White space removed by [String.prototype.trim] and matched by [\s]
    (tab, line feed, vertical tab, form feed, carriage return, space and
    no-break space are the ones below code unit 256). *)
Definition isWhiteSpace (a : ascii) : bool :=
  let n := nat_of_ascii a in
  (Nat.leb 9 n && Nat.leb n 13) || Nat.eqb n 32 || Nat.eqb n 160.

Fixpoint trimStart (s : string) : string :=
  match s with
  | EmptyString => EmptyString
  | String a t => if isWhiteSpace a then trimStart t else s
  end.

Fixpoint trimEnd (s : string) : string :=
  match s with
  | EmptyString => EmptyString
  | String a t =>
      match trimEnd t with
      | EmptyString => if isWhiteSpace a then EmptyString else String a EmptyString
      | t' => String a t'
      end
  end.

Definition trim (s : string) : string := trimEnd (trimStart s).

(** [s.startsWith(p)] *)
Fixpoint startsWith (s p : string) : bool :=
  match p, s with
  | EmptyString, _ => true
  | String x p', String y s' => Ascii.eqb x y && startsWith s' p'
  | String _ _, EmptyString => false
  end.

(** [s.includes(p)] *)
Fixpoint includes (s p : string) : bool :=
  startsWith s p ||
  match s with
  | EmptyString => false
  | String _ t => includes t p
  end.

(** The first [n] code units of [s]. *)
Fixpoint take (n : nat) (s : string) : string :=
  match n, s with
  | S n', String a t => String a (take n' t)
  | _, _ => EmptyString
  end.

(** [Array.prototype.includes] on an array of strings. *)
Definition arrayIncludes (l : list string) (x : string) : bool :=
  existsb (String.eqb x) l.

(** Decimal rendering of a non-negative integer in a template literal. *)
Definition ofNat (n : nat) : string :=
  NilEmpty.string_of_uint (Nat.to_uint n).

(** ASCII upper-casing, the canonicalisation of the [i] flag for the code
    units that can equal a character of the patterns of the source (all
    pattern characters are ASCII). *)
Definition canon (a : ascii) : ascii :=
  let n := nat_of_ascii a in
  if Nat.leb 97 n && Nat.leb n 122 then ascii_of_nat (n - 32) else a.

End JsString.

(* ================================================================== *)
(** ** Regular expressions

    The fragment of JavaScript regular expressions the source uses: literal
    text, character classes, greedy and lazy repetition of a class, capture
    groups (never nested in the source) and concatenation, matched by
    backtracking with JavaScript's priorities (greedy: longest first; lazy:
    shortest first; leftmost match wins). *)

Module Regex.
Import JsString.

Inductive cset : Type :=
| AnyChar                 (* [\s\S] *)
| OneOf (cs : string)     (* [abc]  *)
| NoneOf (cs : string).   (* [^abc] *)

Inductive regex : Type :=
| Lit (l : string)        (* literal characters *)
| One (c : cset)          (* one character of a class *)
| Star (c : cset)         (* c*  *)
| StarLazy (c : cset)     (* c*? *)
| Plus (c : cset)         (* c+  *)
| Cap (r : regex)         (* ( r ) *)
| Cat (r1 r2 : regex).    (* r1 r2 *)

(** A successful match: [text] is [match[0]], [groups] are [match[1]],
    [match[2]], ... *)
Record Match : Type := mkMatch { text : string; groups : list string }.

(** The part of [s] consumed when [rest] is what remains of it. *)
Definition consumed (s rest : string) : string :=
  take (String.length s - String.length rest) s.

Section Matcher.
(** The [i] flag. *)
Variable ignoreCase : bool.

Definition sameChar (x y : ascii) : bool :=
  if ignoreCase then Ascii.eqb (canon x) (canon y) else Ascii.eqb x y.

Fixpoint inString (a : ascii) (cs : string) : bool :=
  match cs with
  | EmptyString => false
  | String c cs' => sameChar c a || inString a cs'
  end.

Definition member (c : cset) (a : ascii) : bool :=
  match c with
  | AnyChar => true
  | OneOf cs => inString a cs
  | NoneOf cs => negb (inString a cs)
  end.

(** Matching literal text at the start of [s]: what remains. *)
Fixpoint literal (l s : string) : option string :=
  match l, s with
  | EmptyString, _ => Some s
  | String x l', String y s' => if sameChar x y then literal l' s' else None
  | String _ _, EmptyString => None
  end.

Section Continuation.
Context {A : Type}.

(** [c*] followed by the continuation [k]: as many as possible first. *)
Fixpoint greedy (c : cset) (s : string) (k : string -> option A) : option A :=
  match s with
  | String a t =>
      if member c a then
        match greedy c t k with
        | Some x => Some x
        | None => k s
        end
      else k s
  | EmptyString => k s
  end.

(** [c*?] followed by the continuation [k]: as few as possible first. *)
Fixpoint lazy (c : cset) (s : string) (k : string -> option A) : option A :=
  match k s with
  | Some x => Some x
  | None =>
      match s with
      | String a t => if member c a then lazy c t k else None
      | EmptyString => None
      end
  end.

(** Backtracking matcher in continuation-passing style: [k] receives
    what remains of the subject and the captures made so far. *)
Fixpoint run (r : regex) (s : string) (caps : list string)
         (k : string -> list string -> option A) : option A :=
  match r with
  | Lit l =>
      match literal l s with
      | Some rest => k rest caps
      | None => None
      end
  | One c =>
      match s with
      | String a t => if member c a then k t caps else None
      | EmptyString => None
      end
  | Star c => greedy c s (fun rest => k rest caps)
  | StarLazy c => lazy c s (fun rest => k rest caps)
  | Plus c =>
      match s with
      | String a t =>
          if member c a then greedy c t (fun rest => k rest caps) else None
      | EmptyString => None
      end
  | Cap r1 =>
      run r1 s caps (fun rest caps' => k rest (caps' ++ [consumed s rest]))
  | Cat r1 r2 =>
      run r1 s caps (fun rest caps' => run r2 rest caps' k)
  end.
End Continuation.

(** A match starting at the first code unit of [s]. *)
Definition matchHere (r : regex) (s : string) : option Match :=
  run r s [] (fun rest caps => Some (mkMatch (consumed s rest) caps)).

(** [s.match(r)] without the [g] flag: the leftmost match, or [None]
    for [null]. *)
Fixpoint exec (r : regex) (s : string) : option Match :=
  match matchHere r s with
  | Some m => Some m
  | None =>
      match s with
      | String _ t => exec r t
      | EmptyString => None
      end
  end.

(** [Array.from(s.matchAll(r))] with the [g] flag.  [skip] counts the
    code units of the previous match still to be passed over; after an
    empty match the search resumes one code unit further. *)
Fixpoint matchAllFrom (r : regex) (s : string) (skip : nat) : list Match :=
  match skip with
  | S n =>
      match s with
      | String _ t => matchAllFrom r t n
      | EmptyString => []
      end
  | O =>
      match matchHere r s with
      | Some m =>
          m :: match s with
               | String _ t => matchAllFrom r t (pred (String.length (text m)))
               | EmptyString => []
               end
      | None =>
          match s with
          | String _ t => matchAllFrom r t 0
          | EmptyString => []
          end
      end
  end.

Definition matchAll (r : regex) (s : string) : list Match :=
  matchAllFrom r s 0.

(** [s.replace(r, by)] with the [g] flag. *)
Fixpoint replaceFrom (r : regex) (by_ s : string) (skip : nat) : string :=
  match skip with
  | S n =>
      match s with
      | String _ t => replaceFrom r by_ t n
      | EmptyString => EmptyString
      end
  | O =>
      match matchHere r s with
      | Some m =>
          String.append by_
            match String.length (text m), s with
            | S n, String _ t => replaceFrom r by_ t n
            | O, String a t => String a (replaceFrom r by_ t 0)
            | _, EmptyString => EmptyString
            end
      | None =>
          match s with
          | String a t => String a (replaceFrom r by_ t 0)
          | EmptyString => EmptyString
          end
      end
  end.

Definition replaceAll (r : regex) (by_ s : string) : string :=
  replaceFrom r by_ s 0.
End Matcher.

(** Concatenation of a list of pieces. *)
Fixpoint seq (rs : list regex) : regex :=
  match rs with
  | [] => Lit EmptyString
  | [r] => r
  | r :: rs' => Cat r (seq rs')
  end.

(** [<tag[^>]*>]: an opening tag. *)
Definition openTag (tag : string) : regex :=
  seq [Lit (String "<" tag); Star (NoneOf ">"); Lit ">"].

(** [<tag[^>]*>([\s\S]*?)<\/tag>]: an element with its content captured. *)
Definition element (tag : string) : regex :=
  seq [Lit (String "<" tag); Star (NoneOf ">"); Lit ">";
       Cap (StarLazy AnyChar); Lit (String "<" (String "/" tag)); Lit ">"].

(** The double quote and the apostrophe, the two delimiters of an
    attribute value. *)
Definition quotes : string :=
  String (ascii_of_nat 34) (String (ascii_of_nat 39) EmptyString).

(** A quoted attribute value with the value captured: a quote or an
    apostrophe, one or more characters that are neither, captured, and a
    quote or an apostrophe. *)
Definition quoted : list regex :=
  [One (OneOf quotes); Cap (Plus (NoneOf quotes)); One (OneOf quotes)].

End Regex.

(* ================================================================== *)
(** ** The structural validator: [validateFeedXML] *)

Module Validator.
Import JsString Regex.

(** The object [{ isValid, errors }] the function returns. *)
Record ValidationOutcome : Type :=
  mkOutcome { isValid : bool; errors : list string }.

(** [errors.push(e)] *)
Definition push (errors : list string) (e : string) : list string :=
  errors ++ [e].

(** The double quote character, for the messages and markers that hold one. *)
Definition dq : string := String (ascii_of_nat 34) EmptyString.

Definition atomNamespace : string :=
  ("xmlns=" ++ dq ++ "http://www.w3.org/2005/Atom" ++ dq)%string.

Definition isNull {A : Type} (m : option A) : bool :=
  match m with
  | Some _ => false
  | None => true
  end.

(** [m[1]] of a match; a group of these patterns always participates. *)
Definition group1 (m : Match) : string := nth 0 (groups m) EmptyString.

(** The loop over [itemMatches]: one numbered violation for each item that
    has neither a title nor a description tag. *)
Definition checkItems (xmlContent : string) (errors : list string) : list string :=
  let itemMatches := matchAll true (element "item") xmlContent in
  snd (fold_left
         (fun (st : nat * list string) (itemMatch : Match) =>
            let itemCount := S (fst st) in
            let itemContent := group1 itemMatch in
            let hasItemTitle := exec true (openTag "title") itemContent in
            let hasItemDescription := exec true (openTag "description") itemContent in
            if isNull hasItemTitle && isNull hasItemDescription then
              (itemCount,
               push (snd st)
                 ("RSS item #" ++ ofNat itemCount
                    ++ " missing required <title> or <description> element")%string)
            else (itemCount, snd st))
         itemMatches (0, errors)).

(** The checks on the content of the channel element. *)
Definition checkChannel (xmlContent channelContent : string)
           (errors : list string) : list string :=
  let titleMatch := exec true (element "title") channelContent in
  let errors :=
    match titleMatch with
    | None => push errors "RSS feed missing required <title> element in <channel>"
    | Some m =>
        if String.eqb (group1 m) EmptyString
           || String.eqb (trim (group1 m)) EmptyString
        then push errors "RSS feed <title> element in <channel> is empty"
        else errors
    end in
  let linkMatch := exec true (openTag "link") channelContent in
  let errors :=
    if isNull linkMatch
    then push errors "RSS feed missing required <link> element in <channel>"
    else errors in
  if isNull (exec true (openTag "item") xmlContent)
  then push errors "RSS feed should contain at least one <item> element"
  else checkItems xmlContent errors.

(** The branch taken when the text holds [<rss] or [<channel>]. *)
Definition checkRss (xmlContent : string) (errors : list string) : list string :=
  let rssMatch := exec true (openTag "rss") xmlContent in
  let errors :=
    match rssMatch with
    | Some m =>
        if negb (includes (text m) "version=")
        then push errors
               ("RSS feed should declare version attribute (e.g., version="
                  ++ dq ++ "2.0" ++ dq ++ ")")%string
        else errors
    | None => errors
    end in
  let hasChannel := includes xmlContent "<channel>" || includes xmlContent "<channel " in
  let errors :=
    if negb hasChannel
    then push errors "RSS feed missing required <channel> element"
    else errors in
  let channelMatch := exec true (element "channel") xmlContent in
  match channelMatch with
  | Some m => checkChannel xmlContent (group1 m) errors
  | None =>
      if hasChannel
      then push errors "RSS feed has <channel> tag but content could not be parsed"
      else errors
  end.

(** The branch taken for an Atom document. *)
Definition checkAtom (xmlContent : string) (errors : list string) : list string :=
  let errors :=
    if isNull (exec true (openTag "title") xmlContent)
    then push errors "Atom feed missing required <title> element in <feed>"
    else errors in
  let errors :=
    if isNull (exec true (openTag "id") xmlContent)
    then push errors "Atom feed missing required <id> element in <feed>"
    else errors in
  let errors :=
    if isNull (exec true (openTag "updated") xmlContent)
    then push errors "Atom feed missing required <updated> element in <feed>"
    else errors in
  if isNull (exec true (openTag "entry") xmlContent)
  then push errors "Atom feed should contain at least one <entry> element"
  else errors.

(** The count of [media:content] tags that carry a [filesize] attribute,
    reported as one violation. *)
Definition checkFilesize (xmlContent : string) (errors : list string) : list string :=
  let mediaContentMatches := matchAll true (openTag "media:content") xmlContent in
  let filesizeErrorCount :=
    fold_left
      (fun (n : nat) (m : Match) => if includes (text m) "filesize=" then S n else n)
      mediaContentMatches 0 in
  if Nat.ltb 0 filesizeErrorCount
  then push errors
         ("Unexpected filesize attribute on media:content element ("
            ++ ofNat filesizeErrorCount ++ " occurrence"
            ++ (if Nat.ltb 1 filesizeErrorCount then "s" else EmptyString)
            ++ ")")%string
  else errors.

(** The gate: the trimmed text starts with an XML declaration, an [<rss]
    tag or a [<feed] tag. *)
Definition looksLikeXml (xmlContent : string) : bool :=
  startsWith (trim xmlContent) "<?xml"
  || startsWith (trim xmlContent) "<rss"
  || startsWith (trim xmlContent) "<feed".

(** How the [try] block ends: with a [return], or with an exception thrown
    while [errors] holds what was pushed so far. *)
Inductive Completion : Type :=
| Returned (outcome : ValidationOutcome)
| Thrown (errors : list string) (message : string).

(** The [try] block.  The two counts [openTags] and [closeTags] the source
    computes before returning are never read and are left out.  No
    operation of the block throws on a string, so it always returns. *)
Definition tryBlock (xmlContent : string) (errors : list string) : Completion :=
  if negb (looksLikeXml xmlContent) then
    Returned (mkOutcome false (push errors "Feed does not appear to be valid XML"))
  else
    let errors :=
      if includes xmlContent "<rss" || includes xmlContent "<channel>" then
        checkRss xmlContent errors
      else if includes xmlContent "<feed" && includes xmlContent atomNamespace then
        checkAtom xmlContent errors
      else
        push errors "Feed does not appear to be a valid RSS 2.0 or Atom feed" in
    let errors := checkFilesize xmlContent errors in
    Returned (mkOutcome (Nat.eqb (List.length errors) 0) errors).

(** The [catch] block. *)
Definition catchBlock (errors : list string) (message : string) : ValidationOutcome :=
  mkOutcome false (push errors ("XML validation error: " ++ message)%string).

Definition complete (c : Completion) : ValidationOutcome :=
  match c with
  | Returned outcome => outcome
  | Thrown errors message => catchBlock errors message
  end.

Definition validateFeedXML (xmlContent url : string) : ValidationOutcome :=
  complete (tryBlock xmlContent []).

End Validator.

(* ================================================================== *)
(** ** JavaScript numbers

    Numbers are binary64 values.  The operations are the IEEE 754
    operations of [SpecFloat], which round to nearest, ties to even, as
    JavaScript does. *)

Module JsNumber.

Definition prec : Z := 53.
Definition emax : Z := 1024.

Definition number : Type := spec_float.

(** The number nearest to an integer (exact below 2^53 in magnitude, which
    covers every time value of a [Date] and every array length). *)
Definition ofZ (z : Z) : number := binary_normalize prec emax z 0 false.

Definition sub (x y : number) : number := SFsub prec emax x y.
Definition mul (x y : number) : number := SFmul prec emax x y.
Definition div (x y : number) : number := SFdiv prec emax x y.

(** [x < y] and [x <= y]; both are [false] when an operand is NaN. *)
Definition ltb (x y : number) : bool := SFltb x y.
Definition leb (x y : number) : bool := SFleb x y.


(** The literal [0.1]: the number nearest to one tenth. *)
Definition tenth : number := div (ofZ 1) (ofZ 10).

(** The result of [Math.round]: an integer-valued number, an infinity or
    NaN.  An integer-valued number is kept as its integer. *)
Inductive integral : Type :=
| IntNaN
| IntInfinity (negative : bool)
| IntValue (z : Z).

(** [Math.round(x)]: the integer nearest to [x], ties towards +infinity,
    that is the floor of [x + 1/2] computed exactly.  A finite [x] is
    [(-1)^s * m * 2^e]. *)
Definition round (x : number) : integral :=
  match x with
  | S754_nan => IntNaN
  | S754_infinity s => IntInfinity s
  | S754_zero _ => IntValue 0
  | S754_finite s m e =>
      let v := cond_Zopp s (Zpos m) in
      if (0 <=? e)%Z then IntValue (v * 2 ^ e)
      else IntValue ((2 * v + 2 ^ (- e)) / 2 ^ (1 - e))
  end.

(** [x === n] for the result of [Math.round] and an integer literal. *)
Definition integralEqb (i : integral) (n : Z) : bool :=
  match i with
  | IntValue z => Z.eqb z n
  | _ => false
  end.

Definition ofZString (z : Z) : string :=
  match z with
  | Z0 => "0"
  | Zpos p => NilEmpty.string_of_uint (Pos.to_uint p)
  | Zneg p => String "-" (NilEmpty.string_of_uint (Pos.to_uint p))
  end.

(** The rendering of a rounded number in a template literal.  Integers are
    printed in decimal, which is what JavaScript prints for magnitudes
    below 10^21. *)
Definition integralToString (i : integral) : string :=
  match i with
  | IntNaN => "NaN"
  | IntInfinity false => "Infinity"
  | IntInfinity true => "-Infinity"
  | IntValue z => ofZString z
  end.

End JsNumber.

(* ================================================================== *)
(** ** The parsed feed

    The shape of what the feed parser hands to the handler.  Every property
    is optional.  The parser always provides the array [items]; an absent
    array and an empty one take the same branches everywhere. *)

(** Truthiness of an optional string: [undefined] and the empty string are
    falsy. *)
Definition truthy (o : option string) : bool :=
  match o with
  | Some (String _ _) => true
  | _ => false
  end.

(** [a || b] on optional strings. *)
Definition orElse (a b : option string) : option string :=
  if truthy a then a else b.

(** The value of an extension property of an item (typed [any] in the
    source), as far as the handler tells values apart: a string, or an
    object with its [url] property. *)
Inductive JsValue : Type :=
| JsStr (s : string)
| JsObj (url : option string).

Definition truthyValue (o : option JsValue) : bool :=
  match o with
  | Some (JsStr s) => truthy (Some s)
  | Some (JsObj _) => true
  | None => false
  end.

Module Enclosure.
Record t : Type := mk { url : option string; type : option string }.
End Enclosure.

Module Item.
Record t : Type := mk {
  title : option string;
  link : option string;
  content : option string;
  contentSnippet : option string;
  description : option string;
  categories : option (list string);
  pubDate : option string;
  creator : option string;
  author : option string;
  guid : option string;
  enclosure : option Enclosure.t;
  mediaContent : option JsValue;
  mediaThumbnail : option JsValue;
  contentEncoded : option string;
  image : option JsValue
}.

(** An item with no property at all. *)
Definition empty : t :=
  mk None None None None None None None None None None None None None None None.

(** The item with its [content] replaced. *)
Definition withContent (c : option string) (item : t) : t :=
  mk (title item) (link item) c (contentSnippet item) (description item)
     (categories item) (pubDate item) (creator item) (author item) (guid item)
     (enclosure item) (mediaContent item) (mediaThumbnail item)
     (contentEncoded item) (image item).
End Item.

Module Feed.
Record t : Type := mk {
  title : option string;
  link : option string;
  description : option string;
  categories : option (list string);
  items : list Item.t
}.
End Feed.

(** The counters of [imageSources]. *)
Module ImageSources.
Record t : Type := mk {
  mediaContent : nat;
  mediaThumbnail : nat;
  enclosure : nat;
  imgTag : nat;
  openGraph : nat
}.
End ImageSources.

Inductive ContentType : Type := full | excerpt | unknown.

(** The body of the response for a document that was analysed
    ([isValid: true]).  [None] in [lastUpdate] and [postFrequency] is
    [null]; [None] in [duplicateGuids], [missingFields] and
    [imageResolutions] is [undefined]: the key is left out of the JSON. *)
Module Report.
Record t : Type := mk {
  title : string;
  availableFields : list string;
  hasFeaturedImage : bool;
  contentType : ContentType;
  lastUpdate : option string;
  itemCount : nat;
  feedType : string;
  postFrequency : option string;
  duplicateGuids : option (list string);
  missingFields : option (list string);
  imageSources : ImageSources.t;
  imageResolutions : option (list string)
}.
End Report.

(** What the handler answers once the document is fetched: the analysis,
    or the body with [isValid: false], no field, no featured image and an
    unknown content type, with [error] and, after a failed validation,
    [validationErrors]. *)
Inductive Response : Type :=
| Analysed (report : Report.t)
| Rejected (error : string) (validationErrors : option (list string)).

(** What the parser does: a feed, or an exception with its [message]. *)
Inductive ParseOutcome : Type :=
| Parsed (feed : Feed.t)
| ParseFailed (message : option string).

(* ================================================================== *)
(** ** The analysis of [POST] *)

Module Analysis.
Import JsString Regex.

(** *** Field discovery *)

(** [set.add(x)] on a set kept in insertion order. *)
Definition add (set : list string) (x : string) : list string :=
  if arrayIncludes set x then set else set ++ [x].

Definition addIf (b : bool) (x : string) (set : list string) : list string :=
  if b then add set x else set.

Definition nonEmptyList (o : option (list string)) : bool :=
  match o with
  | Some (_ :: _) => true
  | _ => false
  end.

Definition isSome {A : Type} (o : option A) : bool :=
  match o with
  | Some _ => true
  | None => false
  end.

Fixpoint insertString (x : string) (l : list string) : list string :=
  match l with
  | [] => [x]
  | y :: l' => if String.leb x y then x :: l else y :: insertString x l'
  end.

(** [Array.prototype.sort] without a comparator: by code units. *)
Definition sortStrings (l : list string) : list string :=
  fold_right insertString [] l.

Definition availableFields (feed : Feed.t) : list string :=
  let set := addIf (truthy (Feed.title feed)) "title" [] in
  let set := addIf (truthy (Feed.link feed)) "link" set in
  let set := addIf (truthy (Feed.description feed)) "description" set in
  let set := addIf (nonEmptyList (Feed.categories feed)) "categories" set in
  let set :=
    match Feed.items feed with
    | [] => set
    | firstItem :: _ =>
        let set := addIf (truthy (Item.title firstItem)) "title" set in
        let set := addIf (truthy (Item.link firstItem)) "link" set in
        let set := addIf (truthy (Item.content firstItem)) "content" set in
        let set := addIf (truthy (Item.contentSnippet firstItem)) "contentSnippet" set in
        let set := addIf (truthy (Item.description firstItem)) "description" set in
        let set := addIf (nonEmptyList (Item.categories firstItem)) "categories" set in
        let set := addIf (truthy (Item.pubDate firstItem)) "pubDate" set in
        let set := addIf (truthy (Item.creator firstItem)) "creator" set in
        let set := addIf (truthy (Item.author firstItem)) "author" set in
        let set := addIf (truthy (Item.guid firstItem)) "guid" set in
        let set := addIf (truthy (Item.contentEncoded firstItem)) "content:encoded" set in
        let set := addIf (truthyValue (Item.mediaContent firstItem)) "media:content" set in
        let set := addIf (truthyValue (Item.mediaThumbnail firstItem)) "media:thumbnail" set in
        let set := addIf (isSome (Item.enclosure firstItem)) "enclosure" set in
        addIf (truthyValue (Item.image firstItem)) "image" set
    end in
  sortStrings set.

(** *** The featured image flag *)

(** [item.enclosure && item.enclosure.type?.startsWith('image/')] *)
Definition imageEnclosure (item : Item.t) : bool :=
  match Item.enclosure item with
  | Some e =>
      match Enclosure.type e with
      | Some ty => startsWith ty "image/"
      | None => false
      end
  | None => false
  end.

(** [s && s.includes('<img')] *)
Definition holdsImg (o : option string) : bool :=
  match o with
  | Some s => truthy o && includes s "<img"
  | None => false
  end.

(** The loop that sets the flag and breaks at the first item that
    qualifies. *)
Fixpoint hasFeaturedImage (items : list Item.t) : bool :=
  match items with
  | [] => false
  | item :: rest =>
      if truthyValue (Item.mediaContent item) then true
      else if truthyValue (Item.mediaThumbnail item) then true
      else if imageEnclosure item then true
      else if truthyValue (Item.image item) then true
      else if holdsImg (Item.description item) then true
      else if holdsImg (Item.contentEncoded item) then true
      else hasFeaturedImage rest
  end.

(** *** The content type *)

(** [item.contentEncoded || item.content || item.description || ''] *)
Definition bestContent (item : Item.t) : string :=
  match orElse (orElse (Item.contentEncoded item) (Item.content item))
               (Item.description item) with
  | Some s => if truthy (Some s) then s else EmptyString
  | None => EmptyString
  end.

(** The pattern that matches a markup tag: an opening angle bracket, any
    characters but a closing one, and a closing angle bracket. *)
Definition anyTag : regex := seq [Lit "<"; Star (NoneOf ">"); Lit ">"].

(** [content.replace(anyTag, '')] with the [g] flag. *)
Definition stripTags (content : string) : string :=
  replaceAll false anyTag EmptyString content.

Definition classify (contentLength : nat) : ContentType :=
  if Nat.ltb 500 contentLength then full
  else if Nat.ltb 0 contentLength then excerpt
  else unknown.

Definition contentType (items : list Item.t) : ContentType :=
  match items with
  | [] => unknown
  | firstItem :: _ => classify (String.length (stripTags (bestContent firstItem)))
  end.

(** *** Duplicate identifiers and missing fields *)

(** [guidMap.set(guid, (guidMap.get(guid) || 0) + 1)] on a map kept in
    insertion order. *)
Fixpoint countKey (guid : string) (guidMap : list (string * nat)) : list (string * nat) :=
  match guidMap with
  | [] => [(guid, 1)]
  | (k, n) :: rest =>
      if String.eqb k guid then (k, S n) :: rest else (k, n) :: countKey guid rest
  end.

Definition duplicateGuids (items : list Item.t) : list string :=
  let guidMap :=
    fold_left
      (fun guidMap item =>
         match orElse (Item.guid item) (Item.link item) with
         | Some guid => if truthy (Some guid) then countKey guid guidMap else guidMap
         | None => guidMap
         end)
      items [] in
  map fst (filter (fun kc => Nat.ltb 1 (snd kc)) guidMap).

Definition missingFields (items : list Item.t) : list string :=
  match items with
  | [] => []
  | firstItem :: _ =>
      (if truthy (Item.title firstItem) then [] else ["title"])
        ++ (if truthy (Item.link firstItem) then [] else ["link"])
        ++ (if negb (truthy (Item.description firstItem))
               && negb (truthy (Item.content firstItem))
            then ["description"] else [])
  end.

(** [list.length > 0 ? list : undefined] *)
Definition orUndefined (l : list string) : option (list string) :=
  match l with
  | [] => None
  | _ :: _ => Some l
  end.

(** *** The feed type *)

Definition rssVersion : regex :=
  seq ([Lit "<rss"; Star (NoneOf ">"); Lit "version="] ++ quoted).

Definition feedType (xmlContent : string) : string :=
  if includes xmlContent "<rss" then
    match exec true rssVersion xmlContent with
    | Some m =>
        let version := Validator.group1 m in
        if truthy (Some version) then
          if String.eqb version "2.0" then "RSS 2.0" else ("RSS " ++ version)%string
        else "RSS 2.0"
    | None => "RSS 2.0"
    end
  else if includes xmlContent "<feed" && includes xmlContent Validator.atomNamespace
  then "Atom"
  else if includes xmlContent "<rdf:RDF" then "RDF"
  else "Unknown".

(** *** The image sources and the sample image URLs *)

(** The pattern of a [url] attribute: [url=] and a quoted value. *)
Definition urlAttribute : regex := seq (Lit "url=" :: quoted).

(** The pattern of an [img] tag up to the value of its [src] attribute. *)
Definition imgSrc : regex :=
  seq ([Lit "<img"; Plus (NoneOf ">"); Lit "src="] ++ quoted).

(** [<media:thumbnail[^>]*>] with the flags [g] and [i]. *)
Definition mediaThumbnailMatches (xmlContent : string) : list Match :=
  matchAll true (openTag "media:thumbnail") xmlContent.

(** The state of the scan: the counters and the array [imageUrls]. *)
Record Scan : Type := mkScan { sources : ImageSources.t; imageUrls : list string }.

Definition pushUnlessIncluded (urls : list string) (u : string) : list string :=
  if arrayIncludes urls u then urls else urls ++ [u].

(** The pass over the raw text, before the items are looked at: the
    counter is set to the number of thumbnail tags and the URL of each tag
    that has one is pushed. *)
Definition scanRawThumbnails (xmlContent : string) : Scan :=
  let matches := mediaThumbnailMatches xmlContent in
  let zero := ImageSources.mk 0 0 0 0 0 in
  if Nat.ltb 0 (List.length matches) then
    mkScan
      (ImageSources.mk 0 (List.length matches) 0 0 0)
      (fold_left
         (fun urls m =>
            match exec true urlAttribute (text m) with
            | Some urlMatch =>
                if truthy (Some (Validator.group1 urlMatch))
                then urls ++ [Validator.group1 urlMatch]
                else urls
            | None => urls
            end)
         matches [])
  else mkScan zero [].

(** [// Check media:content] *)
Definition scanMediaContent (item : Item.t) (st : Scan) : Scan :=
  if truthyValue (Item.mediaContent item) then
    let src := sources st in
    let src :=
      ImageSources.mk (S (ImageSources.mediaContent src)) (ImageSources.mediaThumbnail src)
        (ImageSources.enclosure src) (ImageSources.imgTag src) (ImageSources.openGraph src) in
    let urls :=
      match Item.mediaContent item with
      | Some (JsObj (Some u)) =>
          if truthy (Some u) then imageUrls st ++ [u] else imageUrls st
      | Some (JsObj None) => imageUrls st
      | Some (JsStr s) =>
          match exec true urlAttribute s with
          | Some m => imageUrls st ++ [Validator.group1 m]
          | None => imageUrls st
          end
      | None => imageUrls st
      end in
    mkScan src urls
  else st.

(** [// Check media:thumbnail (parsed version)] *)
Definition scanMediaThumbnail (item : Item.t) (st : Scan) : Scan :=
  if truthyValue (Item.mediaThumbnail item) then
    let src := sources st in
    let src :=
      if Nat.eqb (ImageSources.mediaThumbnail src) 0 then
        ImageSources.mk (ImageSources.mediaContent src) (S (ImageSources.mediaThumbnail src))
          (ImageSources.enclosure src) (ImageSources.imgTag src) (ImageSources.openGraph src)
      else src in
    let urls :=
      match Item.mediaThumbnail item with
      | Some (JsObj (Some u)) =>
          if truthy (Some u) then pushUnlessIncluded (imageUrls st) u else imageUrls st
      | Some (JsObj None) => imageUrls st
      | Some (JsStr s) =>
          match exec true urlAttribute s with
          | Some m => pushUnlessIncluded (imageUrls st) (Validator.group1 m)
          | None => imageUrls st
          end
      | None => imageUrls st
      end in
    mkScan src urls
  else st.

(** [// Check enclosure] *)
Definition scanEnclosure (item : Item.t) (st : Scan) : Scan :=
  if imageEnclosure item then
    let src := sources st in
    let src :=
      ImageSources.mk (ImageSources.mediaContent src) (ImageSources.mediaThumbnail src)
        (S (ImageSources.enclosure src)) (ImageSources.imgTag src) (ImageSources.openGraph src) in
    let urls :=
      match Item.enclosure item with
      | Some e =>
          match Enclosure.url e with
          | Some u =>
              if truthy (Some u) then pushUnlessIncluded (imageUrls st) u else imageUrls st
          | None => imageUrls st
          end
      | None => imageUrls st
      end in
    mkScan src urls
  else st.

(** [// Check img tags in content] *)
Definition scanImgTag (item : Item.t) (st : Scan) : Scan :=
  let content := bestContent item in
  if includes content "<img" then
    let src := sources st in
    let src :=
      ImageSources.mk (ImageSources.mediaContent src) (ImageSources.mediaThumbnail src)
        (ImageSources.enclosure src) (S (ImageSources.imgTag src)) (ImageSources.openGraph src) in
    let urls :=
      match exec true imgSrc content with
      | Some imgMatch =>
          if truthy (Some (Validator.group1 imgMatch))
          then pushUnlessIncluded (imageUrls st) (Validator.group1 imgMatch)
          else imageUrls st
      | None => imageUrls st
      end in
    mkScan src urls
  else st.

(** [// Check for Open Graph tags (basic check)] *)
Definition scanOpenGraph (item : Item.t) (st : Scan) : Scan :=
  let content := bestContent item in
  if includes content "og:image"
     || includes content ("property=" ++ Validator.dq ++ "og:image" ++ Validator.dq)%string
  then
    let src := sources st in
    mkScan
      (ImageSources.mk (ImageSources.mediaContent src) (ImageSources.mediaThumbnail src)
         (ImageSources.enclosure src) (ImageSources.imgTag src) (S (ImageSources.openGraph src)))
      (imageUrls st)
  else st.

(** The body of the loop over the items. *)
Definition scanItem (st : Scan) (item : Item.t) : Scan :=
  scanOpenGraph item
    (scanImgTag item
       (scanEnclosure item
          (scanMediaThumbnail item
             (scanMediaContent item st)))).

(** The raw pass, then the loop over the items. *)
Definition scanImages (xmlContent : string) (items : list Item.t) : Scan :=
  fold_left scanItem items (scanRawThumbnails xmlContent).

(** [imageUrls.slice(0, 2)], each URL wrapped as [{ url }]. *)
Definition imageResolutions (xmlContent : string) (items : list Item.t) : list string :=
  firstn 2 (imageUrls (scanImages xmlContent items)).

End Analysis.

(* ================================================================== *)
(** ** The temporal analysis and the handler

    [parseDate s] is what the runtime reads in the string [s] as a date:
    a number of milliseconds since the epoch, or [None] when the string is
    not a date.  [formatDate] is [toLocaleString('en-US', ...)] with the
    options of the source, on a valid date. *)

Module Temporal.
Import JsNumber.

(** The comparator of the sort: [(a, b) => a.getTime() - b.getTime()]. *)
Definition compareDates (a b : Z) : number := sub (ofZ a) (ofZ b).

(** [dates.sort(compareDates)].  The sort of an array is stable: a date
    goes before the first of the dates sorted so far for which the
    comparator is negative. *)
Fixpoint insertDate (d : Z) (dates : list Z) : list Z :=
  match dates with
  | [] => [d]
  | x :: rest =>
      if ltb (compareDates d x) (ofZ 0) then d :: dates else x :: insertDate d rest
  end.

Definition sortDates (dates : list Z) : list Z :=
  fold_left (fun sorted d => insertDate d sorted) dates [].

(** [1000 * 60 * 60 * 24] *)
Definition msPerDay : number :=
  mul (mul (mul (ofZ 1000) (ofZ 60)) (ofZ 60)) (ofZ 24).

(** [`${n} posts per ${unit}`], with the singular for one. *)
Definition perUnit (n : integral) (unit : string) : string :=
  if integralEqb n 1 then ("1 post per " ++ unit)%string
  else (integralToString n ++ " posts per " ++ unit)%string.

(** The label chosen from the average number of days between two posts. *)
Definition frequencyLabel (avgDaysBetween : number) : string :=
  if ltb avgDaysBetween tenth then "Multiple posts per day"
  else if ltb avgDaysBetween (ofZ 1) then
    perUnit (round (div (ofZ 1) avgDaysBetween)) "day"
  else if ltb avgDaysBetween (ofZ 7) then
    perUnit (round (div (ofZ 7) avgDaysBetween)) "week"
  else if ltb avgDaysBetween (ofZ 30) then
    perUnit (round (div (ofZ 30) avgDaysBetween)) "month"
  else "Less than 1 post per month".

(** [avgDaysBetween] from the sorted time values.  [getTime()] gives the
    time value as a number; the length of the array is a number too. *)
Definition averageDays (sorted : list Z) : number :=
  let timeDiff := sub (ofZ (last sorted 0%Z)) (ofZ (hd 0%Z sorted)) in
  let daysDiff := div timeDiff msPerDay in
  div daysDiff (sub (ofZ (Z.of_nat (List.length sorted))) (ofZ 1)).

(** The time value kept by a [Date]: an integer of magnitude at most
    8.64e15 milliseconds; beyond it the date is invalid. *)
Definition timeClip (t : Z) : option Z :=
  if (Z.abs t <=? 8640000000000000)%Z then Some t else None.

Section WithDate.
Variable parseDate : string -> option Z.
Variable formatDate : Z -> string.

(** The time value of [new Date(s)]. *)
Definition newDate (s : string) : option Z :=
  match parseDate s with
  | Some t => timeClip t
  | None => None
  end.

(** The time value of an item whose [pubDate] is present and parses. *)
Definition itemDate (item : Item.t) : option Z :=
  match Item.pubDate item with
  | Some s => if truthy (Some s) then newDate s else None
  | None => None
  end.

(** The body of the loop that keeps the latest date. *)
Definition later (latestDate : option Z) (item : Item.t) : option Z :=
  match itemDate item with
  | Some d =>
      match latestDate with
      | None => Some d
      | Some l => if (l <? d)%Z then Some d else latestDate
      end
  | None => latestDate
  end.

Definition latestDate (items : list Item.t) : option Z :=
  fold_left later items None.

Definition lastUpdate (items : list Item.t) : option string :=
  match items with
  | [] => None
  | firstItem :: _ =>
      match latestDate items with
      | Some d => Some (formatDate d)
      | None =>
          if truthy (Item.pubDate firstItem) then Item.pubDate firstItem else None
      end
  end.

(** The array [dates]: the parsable dates, in the order of the items. *)
Definition parsableDates (items : list Item.t) : list Z :=
  fold_left
    (fun dates item =>
       match itemDate item with
       | Some d => dates ++ [d]
       | None => dates
       end)
    items [].

Definition postFrequency (items : list Item.t) : option string :=
  if Nat.ltb 1 (List.length items) then
    let dates := parsableDates items in
    if Nat.ltb 1 (List.length dates) then
      Some (frequencyLabel (averageDays (sortDates dates)))
    else None
  else None.

(** The analysis of a parsed feed: the body built at the end of [POST]. *)
Definition analyse (xmlContent : string) (feed : Feed.t) : Report.t :=
  let items := Feed.items feed in
  Report.mk
    (if truthy (Feed.title feed)
     then match Feed.title feed with Some t => t | None => EmptyString end
     else "Untitled Feed")
    (Analysis.availableFields feed)
    (Analysis.hasFeaturedImage items)
    (Analysis.contentType items)
    (lastUpdate items)
    (List.length items)
    (Analysis.feedType xmlContent)
    (postFrequency items)
    (Analysis.orUndefined (Analysis.duplicateGuids items))
    (Analysis.orUndefined (Analysis.missingFields items))
    (Analysis.sources (Analysis.scanImages xmlContent items))
    (Analysis.orUndefined (Analysis.imageResolutions xmlContent items)).

(** The message chosen in the [catch] block of [POST]. *)
Definition errorMessage (message : option string) : string :=
  match message with
  | Some m =>
      if negb (truthy message) then "Failed to parse RSS feed"
      else if JsString.includes m "timeout"
      then "Request timed out. The feed may be slow or unavailable."
      else if JsString.includes m "ENOTFOUND" || JsString.includes m "getaddrinfo"
      then "Could not reach the feed URL. Please check if the URL is correct."
      else if JsString.includes m "404"
      then "Feed not found (404). Please check if the URL is correct."
      else if JsString.includes m "CORS" || JsString.includes m "Access-Control"
      then "CORS error. The feed server may be blocking requests."
      else m
  | None => "Failed to parse RSS feed"
  end.

(** [POST] from the point where the document has been fetched:
    [xmlContent] is the text fetched from [url], and [parse] is what the
    parser does when it is called, which happens only for a document
    that passes the validation. *)
Definition POST (xmlContent url : string) (parse : ParseOutcome) : Response :=
  let validation := Validator.validateFeedXML xmlContent url in
  if negb (Validator.isValid validation) then
    Rejected
      ("Feed validation failed: "
         ++ String.concat "; " (Validator.errors validation))%string
      (Some (Validator.errors validation))
  else
    match parse with
    | Parsed feed => Analysed (analyse xmlContent feed)
    | ParseFailed message => Rejected (errorMessage message) None
    end.
End WithDate.

End Temporal.

(** The value of [isValid] in the body of a response. *)
Definition responseIsValid (r : Response) : bool :=
  match r with
  | Analysed _ => true
  | Rejected _ _ => false
  end.

(* ================================================================== *)
(** ** An instance of the date functions, for concrete feeds

    [isoDate] accepts the date-only form [YYYY-MM-DD] of the ECMAScript
    date-time string format, which denotes midnight UTC of that day, and
    rejects every other string.  [plainDate] prints a time value as its
    number of milliseconds. *)

Module Examples.

Definition digit (a : ascii) : option Z :=
  let n := nat_of_ascii a in
  if Nat.leb 48 n && Nat.leb n 57 then Some (Z.of_nat (n - 48)) else None.

Fixpoint digits (acc : Z) (s : string) : option Z :=
  match s with
  | EmptyString => Some acc
  | String a t =>
      match digit a with
      | Some d => digits (10 * acc + d)%Z t
      | None => None
      end
  end.

Definition isLeap (y : Z) : bool :=
  ((y mod 4 =? 0) && negb (y mod 100 =? 0) || (y mod 400 =? 0))%Z.

Definition daysInMonth (y m : Z) : Z :=
  if (m =? 2)%Z then (if isLeap y then 29 else 28)%Z
  else if ((m =? 4) || (m =? 6) || (m =? 9) || (m =? 11))%Z then 30%Z
  else 31%Z.

(** Days from 1970-01-01 to the given day of the proleptic Gregorian
    calendar. *)
Definition daysFromCivil (y m d : Z) : Z :=
  let y' := (if m <=? 2 then y - 1 else y)%Z in
  let era := (y' / 400)%Z in
  let yoe := (y' - era * 400)%Z in
  let doy := ((153 * (if 2 <? m then m - 3 else m + 9) + 2) / 5 + d - 1)%Z in
  let doe := (yoe * 365 + yoe / 4 - yoe / 100 + doy)%Z in
  (era * 146097 + doe - 719468)%Z.

Definition isoDate (s : string) : option Z :=
  if Nat.eqb (String.length s) 10
     && String.eqb (String.substring 4 1 s) "-"
     && String.eqb (String.substring 7 1 s) "-"
  then
    match digits 0 (String.substring 0 4 s),
          digits 0 (String.substring 5 2 s),
          digits 0 (String.substring 8 2 s) with
    | Some y, Some m, Some d =>
        if ((1 <=? m) && (m <=? 12) && (1 <=? d) && (d <=? daysInMonth y m))%Z
        then Some (daysFromCivil y m d * 86400000)%Z
        else None
    | _, _, _ => None
    end
  else None.

Definition plainDate (t : Z) : string :=
  (JsNumber.ofZString t ++ " ms")%string.

End Examples.

(* ================================================================== *)
(** ** The wording of the specification

    Definitions that follow the words of the specification, to be compared
    with the ones taken from the source. *)

Module Spec.

(** The content source of an item: the full-content extension, then the
    content, then the description, and the empty string by default. *)
Definition chosenContent (item : Item.t) : string :=
  match Item.contentEncoded item with
  | Some (String a s) => String a s
  | _ =>
      match Item.content item with
      | Some (String a s) => String a s
      | _ =>
          match Item.description item with
          | Some (String a s) => String a s
          | _ => EmptyString
          end
      end
  end.

(** The index of the first closing angle bracket of [s]. *)
Fixpoint closingIndex (s : string) : option nat :=
  match s with
  | EmptyString => None
  | String a t =>
      if Ascii.eqb a ">" then Some 0
      else match closingIndex t with
           | Some k => Some (S k)
           | None => None
           end
  end.

(** The text without its markup tags.  A tag runs from an opening angle
    bracket to the next closing one; [inTag] tells whether the scan is
    inside a tag. *)
Fixpoint withoutTags (inTag : bool) (s : string) : string :=
  match s with
  | EmptyString => EmptyString
  | String a t =>
      if inTag then
        if Ascii.eqb a ">" then withoutTags false t else withoutTags true t
      else
        match Ascii.eqb a "<", closingIndex t with
        | true, Some _ => withoutTags true t
        | _, _ => String a (withoutTags false t)
        end
  end.

Definition strippedLength (item : Item.t) : nat :=
  String.length (withoutTags false (chosenContent item)).

(** The parsable timestamps of the items. *)
Definition parsable (parseDate : string -> option Z) (items : list Item.t) : list Z :=
  flat_map
    (fun item =>
       match Temporal.itemDate parseDate item with
       | Some d => [d]
       | None => []
       end)
    items.

(** The timestamps in ascending order. *)
Fixpoint insertAscending (d : Z) (dates : list Z) : list Z :=
  match dates with
  | [] => [d]
  | x :: rest => if (d <? x)%Z then d :: dates else x :: insertAscending d rest
  end.

Definition ascending (dates : list Z) : list Z :=
  fold_left (fun sorted d => insertAscending d sorted) dates [].

Definition earliest (dates : list Z) : Z := fold_right Z.min (hd 0%Z dates) dates.
Definition latest (dates : list Z) : Z := fold_right Z.max (hd 0%Z dates) dates.

(** The average interval between posts, in days: the span between the
    earliest and the latest timestamp, in days, divided by the count of
    timestamps minus one.  The span in milliseconds and the count minus
    one are exact integers; the two divisions are those of numbers. *)
Definition averageInterval (dates : list Z) : JsNumber.number :=
  JsNumber.div
    (JsNumber.div (JsNumber.ofZ (latest dates - earliest dates)) Temporal.msPerDay)
    (JsNumber.ofZ (Z.of_nat (List.length dates) - 1)).




End Spec.

(* ================================================================== *)
(** ** Concrete documents and feeds *)

Module Samples.

Definition url : string := "http://example.org/feed".

(** An item that has a publication date and nothing else. *)
Definition dated (pubDate : string) : Item.t :=
  Item.mk None None None None None None (Some pubDate) None None None None None None None None.

(** An RSS 2.0 document of two items that show the same thumbnail. *)
Definition thumbnailsDocument : string :=
  "<?xml version='1.0'?><rss version='2.0'><channel><title>News</title><link>http://example.org/</link><item><title>a</title><media:thumbnail url='http://example.org/a.jpg'/></item><item><title>b</title><media:thumbnail url='http://example.org/a.jpg'/></item></channel></rss>".

(** Its parsed form.  The parser hands an element that has attributes over
    as an object that keeps them under [$]: the object has no [url]
    property of its own. *)
Definition thumbnailsFeed : Feed.t :=
  Feed.mk (Some "News") (Some "http://example.org/") None None
    [ Item.mk (Some "a") None None None None None None None None None None
        None (Some (JsObj None)) None None;
      Item.mk (Some "b") None None None None None None None None None None
        None (Some (JsObj None)) None None ].

(** An Atom document whose single entry has an image in its content. *)
Definition atomDocument : string :=
  ("<?xml version='1.0'?><feed " ++ Validator.atomNamespace
     ++ "><title>Notes</title><id>urn:notes</id><updated>2024-01-01T00:00:00Z</updated><entry><title>a</title><id>urn:a</id><updated>2024-01-01T00:00:00Z</updated><content type='html'>&lt;img src='http://example.org/a.png'/&gt; A picture.</content></entry></feed>")%string.

(** Its parsed form: the entry has a title and a content, no description
    and no extension. *)
Definition atomFeed : Feed.t :=
  Feed.mk (Some "Notes") None None None
    [ Item.mk (Some "a") None (Some "<img src='http://example.org/a.png'/> A picture.")
        None None None None None None None None None None None None ].

(** An RSS 2.0 document that passes the validation and has no item: the
    only item tag is inside a comment.  The channel has a thumbnail. *)
Definition emptyChannelDocument : string :=
  "<?xml version='1.0'?><rss version='2.0'><channel><title>News</title><link>http://example.org/</link><media:thumbnail url='http://example.org/logo.png'/><!-- <item><title>draft</title></item> --></channel></rss>".

Definition emptyChannelFeed : Feed.t :=
  Feed.mk (Some "News") (Some "http://example.org/") None None [].

(** An RSS 2.0 document with no item and no thumbnail. *)
Definition bareChannelDocument : string :=
  "<?xml version='1.0'?><rss version='2.0'><channel><title>News</title><link>http://example.org/</link><!-- <item><title>draft</title></item> --></channel></rss>".

(** Five items published one day apart, the newest first. *)
Definition fiveDaily : list Item.t :=
  [dated "2024-01-05"; dated "2024-01-04"; dated "2024-01-03";
   dated "2024-01-02"; dated "2024-01-01"].

(** Two items whose dates do not parse. *)
Definition undated : list Item.t := [dated "soon"; dated "later"].

(** Two items published on the same day. *)
Definition sameDay : list Item.t := [dated "2024-01-05"; dated "2024-01-05"].

(** An RSS 2.0 document whose item has a [media:content] tag with a
    [filesize] attribute. *)
Definition filesizeDocument : string :=
  "<?xml version='1.0'?><rss version='2.0'><channel><title>News</title><link>http://example.org/</link><item><title>a</title><media:content url='http://example.org/a.jpg' filesize='1'/></item></channel></rss>".

End Samples.

(* ================================================================== *)
(** ** The rules of the validator as a decision

    What a document must satisfy for [validateFeedXML] to push no
    violation, rule by rule. *)

Module Rules.
Import JsString Regex Validator.

Definition present {A : Type} (m : option A) : bool := negb (isNull m).

(** The [rss] tag, when there is one, declares a version. *)
Definition versionOk (xmlContent : string) : bool :=
  match exec true (openTag "rss") xmlContent with
  | Some m => includes (text m) "version="
  | None => true
  end.

Definition hasChannel (xmlContent : string) : bool :=
  includes xmlContent "<channel>" || includes xmlContent "<channel ".

(** The content of the channel has a title element whose text is not
    blank. *)
Definition titleOk (channelContent : string) : bool :=
  match exec true (element "title") channelContent with
  | Some m => negb (String.eqb (trim (group1 m)) EmptyString)
  | None => false
  end.

(** An item element has a title tag or a description tag. *)
Definition itemOk (itemMatch : Match) : bool :=
  present (exec true (openTag "title") (group1 itemMatch))
  || present (exec true (openTag "description") (group1 itemMatch)).

Definition itemElements (xmlContent : string) : list Match :=
  matchAll true (element "item") xmlContent.

Definition channelOk (xmlContent : string) : bool :=
  match exec true (element "channel") xmlContent with
  | Some m =>
      titleOk (group1 m)
      && present (exec true (openTag "link") (group1 m))
      && present (exec true (openTag "item") xmlContent)
      && forallb itemOk (itemElements xmlContent)
  | None => false
  end.

Definition rssOk (xmlContent : string) : bool :=
  versionOk xmlContent && hasChannel xmlContent && channelOk xmlContent.

Definition atomOk (xmlContent : string) : bool :=
  includes xmlContent "<feed" && includes xmlContent atomNamespace
  && present (exec true (openTag "title") xmlContent)
  && present (exec true (openTag "id") xmlContent)
  && present (exec true (openTag "updated") xmlContent)
  && present (exec true (openTag "entry") xmlContent).

(** The text holds [<rss] or [<channel>]: the RSS rules apply. *)
Definition rssFamily (xmlContent : string) : bool :=
  includes xmlContent "<rss" || includes xmlContent "<channel>".

(** No [media:content] tag carries a [filesize] attribute. *)
Definition filesizeFree (xmlContent : string) : bool :=
  forallb (fun m => negb (includes (text m) "filesize="))
          (matchAll true (openTag "media:content") xmlContent).

Definition accepts (xmlContent : string) : bool :=
  looksLikeXml xmlContent
  && (if rssFamily xmlContent then rssOk xmlContent else atomOk xmlContent)
  && filesizeFree xmlContent.

(** The numbers of the item elements that have neither tag, counted from
    one after the [n] elements already seen. *)
Fixpoint failing (n : nat) (items : list Match) : list nat :=
  match items with
  | [] => []
  | m :: rest => if itemOk m then failing (S n) rest else S n :: failing (S n) rest
  end.

Definition itemMessage (n : nat) : string :=
  ("RSS item #" ++ ofNat n ++ " missing required <title> or <description> element")%string.

End Rules.

(* ================================================================== *)
(** ** The identity key of an item *)

Module Keys.

(** [item.guid || item.link || ''], when it is not empty. *)
Definition itemKey (item : Item.t) : option string :=
  match orElse (Item.guid item) (Item.link item) with
  | Some g => if truthy (Some g) then Some g else None
  | None => None
  end.

Definition hasKey (g : string) (item : Item.t) : bool :=
  match itemKey item with
  | Some k => String.eqb k g
  | None => false
  end.

(** The number of items whose key is [g]. *)
Definition occurrences (g : string) (items : list Item.t) : nat :=
  List.length (filter (hasKey g) items).

(** [guidMap.get(g) || 0] *)
Fixpoint getCount (g : string) (guidMap : list (string * nat)) : nat :=
  match guidMap with
  | [] => 0
  | (k, n) :: rest => if String.eqb k g then n else getCount g rest
  end.

(** The map [guidMap] after the loop over the items. *)
Definition guidMap (items : list Item.t) : list (string * nat) :=
  fold_left
    (fun guidMap item =>
       match orElse (Item.guid item) (Item.link item) with
       | Some guid =>
           if truthy (Some guid) then Analysis.countKey guid guidMap else guidMap
       | None => guidMap
       end)
    items [].

End Keys.

(* ================================================================== *)
(** ** The earlier handler

    The route file holds an earlier version of the handler: its validator
    has no rule on [media:content], and its featured image loop does not
    look at [media:thumbnail]. *)

Module Legacy.
Import JsString Validator.

Definition tryBlock (xmlContent : string) (errors : list string) : Completion :=
  if negb (looksLikeXml xmlContent) then
    Returned (mkOutcome false (push errors "Feed does not appear to be valid XML"))
  else
    let errors :=
      if includes xmlContent "<rss" || includes xmlContent "<channel>" then
        checkRss xmlContent errors
      else if includes xmlContent "<feed" && includes xmlContent atomNamespace then
        checkAtom xmlContent errors
      else
        push errors "Feed does not appear to be a valid RSS 2.0 or Atom feed" in
    Returned (mkOutcome (Nat.eqb (List.length errors) 0) errors).

Definition validateFeedXML (xmlContent url : string) : ValidationOutcome :=
  complete (tryBlock xmlContent []).

Fixpoint hasFeaturedImage (items : list Item.t) : bool :=
  match items with
  | [] => false
  | item :: rest =>
      if truthyValue (Item.mediaContent item) then true
      else if Analysis.imageEnclosure item then true
      else if truthyValue (Item.image item) then true
      else if Analysis.holdsImg (Item.description item) then true
      else if Analysis.holdsImg (Item.contentEncoded item) then true
      else hasFeaturedImage rest
  end.

End Legacy.

(* ================================================================== *)
(** * Properties *)

(** ** Strings *)

Module StringFacts.
Import JsString.

Lemma startsWith_prefix (s p : string) :
  startsWith s p = true <-> exists rest, s = (p ++ rest)%string.
Proof.
  revert s; induction p as [|x p IH]; intros s; simpl.
  - split; [intros _; exists s; reflexivity | intros _; now destruct s].
  - destruct s as [|y s].
    + split; [discriminate | intros [rest H]; discriminate].
    + simpl. rewrite andb_true_iff, Ascii.eqb_eq, IH. split.
      * intros [-> [rest ->]]. exists rest; reflexivity.
      * intros [rest H]. injection H as -> ->. split; [reflexivity | eauto].
Qed.

Lemma includes_cons (a : ascii) (s p : string) :
  includes (String a s) p = startsWith (String a s) p || includes s p.
Proof. destruct p; reflexivity. Qed.

Lemma includes_empty (p : string) :
  includes EmptyString p = startsWith EmptyString p || false.
Proof. destruct p; reflexivity. Qed.

Lemma includes_infix (s p : string) :
  includes s p = true <-> exists before rest, s = (before ++ p ++ rest)%string.
Proof.
  induction s as [|a s IH];
    [rewrite includes_empty | rewrite includes_cons];
    rewrite orb_true_iff, startsWith_prefix.
  - split.
    + intros [[rest H] | H]; [|discriminate].
      exists EmptyString, rest. exact H.
    + intros [before [rest H]]. left.
      destruct before; [exists rest; exact H | discriminate].
  - rewrite IH. split.
    + intros [[rest H] | [before [rest H]]].
      * exists EmptyString, rest. exact H.
      * exists (String a before), rest. simpl. now rewrite H.
    + intros [before [rest H]]. destruct before as [|b before]; simpl in H.
      * left. exists rest. exact H.
      * right. injection H as -> ->. eauto.
Qed.

Lemma trimStart_no_leading_space (s : string) :
  match trimStart s with
  | EmptyString => True
  | String a _ => isWhiteSpace a = false
  end.
Proof.
  induction s as [|a s IH]; simpl; [exact I|].
  destruct (isWhiteSpace a) eqn:E; [exact IH | exact E].
Qed.

(** The engine on patterns of the source. *)

Example exec_rssVersion :
  Regex.exec true Analysis.rssVersion "<RSS xmlns:a='b' Version='0.92' c='d'>"
  = Some (Regex.mkMatch "<RSS xmlns:a='b' Version='0.92'" ["0.92"]).
Proof. reflexivity. Qed.

Example exec_element_is_lazy :
  Regex.exec true (Regex.element "title") "<x><title lang='en'>a</title><title>b</title>"
  = Some (Regex.mkMatch "<title lang='en'>a</title>" ["a"]).
Proof. reflexivity. Qed.

Example matchAll_resumes_after_a_match :
  map Regex.text
      (Regex.matchAll true (Regex.openTag "media:thumbnail")
         "<media:thumbnail url='a'/><x/><MEDIA:THUMBNAIL><media:thumbnail")
  = ["<media:thumbnail url='a'/>"; "<MEDIA:THUMBNAIL>"].
Proof. reflexivity. Qed.

Example exec_imgSrc :
  Regex.exec true Analysis.imgSrc "<p><img class='c' src='http://example.org/i.png' alt=''></p>"
  = Some (Regex.mkMatch "<img class='c' src='http://example.org/i.png'"
            ["http://example.org/i.png"]).
Proof. reflexivity. Qed.

Example trim_both_ends : trim "  <rss> </rss>
 " = "<rss> </rss>".
Proof. reflexivity. Qed.

End StringFacts.

(** ** The validator *)

Module ValidatorFacts.
Import JsString Validator.

Lemma push_not_nil (errs : list string) (e : string) : push errs e <> [].
Proof. unfold push. destruct errs; discriminate. Qed.

Lemma length_zero_iff_nil (errs : list string) :
  Nat.eqb (List.length errs) 0 = true <-> errs = [].
Proof. destruct errs; simpl; split; congruence. Qed.

(** The validator on small documents. *)

Example validate_not_xml :
  validateFeedXML "<html></html>" "http://example.org/"
  = mkOutcome false ["Feed does not appear to be valid XML"].
Proof. reflexivity. Qed.

Example validate_item_without_title :
  validateFeedXML
    "<rss version='2.0'><channel><title>t</title><link>l</link><item><title>a</title></item><item><guid>x</guid></item></channel></rss>"
    "http://example.org/"
  = mkOutcome false ["RSS item #2 missing required <title> or <description> element"].
Proof. reflexivity. Qed.

Example validate_atom_without_updated :
  validateFeedXML
    ("<feed " ++ atomNamespace ++ "><title>t</title><id>urn:x</id><entry><title>a</title></entry></feed>")%string
    "http://example.org/"
  = mkOutcome false ["Atom feed missing required <updated> element in <feed>"].
Proof. reflexivity. Qed.

Example validate_filesize :
  errors
    (validateFeedXML
       "<rss version='2.0'><channel><title>t</title><link>l</link><item><title>a</title><media:content url='u' filesize='1'/><media:content url='v' filesize='2'/></item></channel></rss>"
       "http://example.org/")
  = ["Unexpected filesize attribute on media:content element (2 occurrences)"].
Proof. reflexivity. Qed.

Lemma catchBlock_consistent (errs : list string) (message : string) :
  isValid (catchBlock errs message) = true <-> errors (catchBlock errs message) = [].
Proof.
  simpl. split; [discriminate | intros H; now apply push_not_nil in H].
Qed.

Lemma tryBlock_returns (xmlContent : string) (errs : list string) :
  exists outcome, tryBlock xmlContent errs = Returned outcome.
Proof. unfold tryBlock. destruct (negb (looksLikeXml xmlContent)); eauto. Qed.

(** C1: for every document the outcome of [validateFeedXML] has
    [isValid] true exactly when its list of violations is empty; this also
    holds for the outcome built by the [catch] block, whatever was pushed
    before the exception and whatever its message. *)
Theorem validateFeedXML_isValid_iff_no_errors :
  (forall xmlContent url,
      isValid (validateFeedXML xmlContent url) = true
      <-> errors (validateFeedXML xmlContent url) = [])
  /\ (forall errs message,
         isValid (complete (Thrown errs message)) = true
         <-> errors (complete (Thrown errs message)) = []).
Proof.
  split.
  - intros xmlContent url. unfold validateFeedXML, tryBlock.
    destruct (negb (looksLikeXml xmlContent)); simpl.
    + split; [discriminate | intros H; now apply push_not_nil in H].
    + apply length_zero_iff_nil.
  - intros errs message. apply catchBlock_consistent.
Qed.

(** C2: a document whose trimmed text starts with none of the three
    markers is invalid with exactly one violation, the one of the gate: no
    other rule adds to the list. *)
Theorem validateFeedXML_gate (xmlContent url : string) :
  startsWith (trim xmlContent) "<?xml" = false ->
  startsWith (trim xmlContent) "<rss" = false ->
  startsWith (trim xmlContent) "<feed" = false ->
  isValid (validateFeedXML xmlContent url) = false
  /\ List.length (errors (validateFeedXML xmlContent url)) = 1
  /\ errors (validateFeedXML xmlContent url) = ["Feed does not appear to be valid XML"].
Proof.
  intros H1 H2 H3. unfold validateFeedXML, tryBlock, looksLikeXml.
  rewrite H1, H2, H3. simpl. repeat split.
Qed.

(** The gate on an HTML page. *)
Lemma validateFeedXML_gate_witness :
  isValid (validateFeedXML "<html></html>" "http://example.org/feed") = false
  /\ List.length (errors (validateFeedXML "<html></html>" "http://example.org/feed")) = 1
  /\ errors (validateFeedXML "<html></html>" "http://example.org/feed")
     = ["Feed does not appear to be valid XML"].
Proof.
  apply (validateFeedXML_gate "<html></html>" "http://example.org/feed"); reflexivity.
Defined.

End ValidatorFacts.

(** ** The image sources *)

Module ImageFacts.
Import JsString Regex Analysis Temporal Samples.

(** Case analysis on the test of the conditional of the goal. *)
Ltac split_if :=
  match goal with
  | |- context [if ?c then _ else _] => destruct c eqn:?
  end.

Lemma scanMediaContent_thumbnail (item : Item.t) (st : Scan) :
  ImageSources.mediaThumbnail (sources (scanMediaContent item st))
  = ImageSources.mediaThumbnail (sources st).
Proof. unfold scanMediaContent. split_if; reflexivity. Qed.

Lemma scanMediaThumbnail_thumbnail (item : Item.t) (st : Scan) :
  ImageSources.mediaThumbnail (sources (scanMediaThumbnail item st))
  = if Nat.eqb (ImageSources.mediaThumbnail (sources st)) 0
       && truthyValue (Item.mediaThumbnail item)
    then 1 else ImageSources.mediaThumbnail (sources st).
Proof.
  unfold scanMediaThumbnail.
  destruct (truthyValue (Item.mediaThumbnail item)); simpl.
  - destruct (Nat.eqb (ImageSources.mediaThumbnail (sources st)) 0) eqn:E; simpl.
    + apply Nat.eqb_eq in E. now rewrite E.
    + reflexivity.
  - now rewrite andb_false_r.
Qed.

Lemma scanEnclosure_thumbnail (item : Item.t) (st : Scan) :
  ImageSources.mediaThumbnail (sources (scanEnclosure item st))
  = ImageSources.mediaThumbnail (sources st).
Proof. unfold scanEnclosure. split_if; reflexivity. Qed.

Lemma scanImgTag_thumbnail (item : Item.t) (st : Scan) :
  ImageSources.mediaThumbnail (sources (scanImgTag item st))
  = ImageSources.mediaThumbnail (sources st).
Proof. unfold scanImgTag. split_if; reflexivity. Qed.

Lemma scanOpenGraph_thumbnail (item : Item.t) (st : Scan) :
  ImageSources.mediaThumbnail (sources (scanOpenGraph item st))
  = ImageSources.mediaThumbnail (sources st).
Proof. unfold scanOpenGraph. split_if; reflexivity. Qed.

Create Rewrite HintDb thumbnail.

#[local] Hint Rewrite
  scanOpenGraph_thumbnail scanImgTag_thumbnail scanEnclosure_thumbnail
  scanMediaThumbnail_thumbnail scanMediaContent_thumbnail : thumbnail.

(** One turn of the loop: the counter goes from zero to one on an item that
    exposes the extension, and is left alone otherwise. *)
Lemma scanItem_thumbnail (st : Scan) (item : Item.t) :
  ImageSources.mediaThumbnail (sources (scanItem st item))
  = if Nat.eqb (ImageSources.mediaThumbnail (sources st)) 0
       && truthyValue (Item.mediaThumbnail item)
    then 1 else ImageSources.mediaThumbnail (sources st).
Proof. unfold scanItem. autorewrite with thumbnail. reflexivity. Qed.

(** The whole loop, from any state. *)
Lemma scanItems_thumbnail (items : list Item.t) (st : Scan) :
  ImageSources.mediaThumbnail (sources (fold_left scanItem items st))
  = if Nat.eqb (ImageSources.mediaThumbnail (sources st)) 0
    then (if existsb (fun item => truthyValue (Item.mediaThumbnail item)) items
          then 1 else 0)
    else ImageSources.mediaThumbnail (sources st).
Proof.
  revert st. induction items as [|item items IH]; intros st; simpl.
  - destruct (Nat.eqb _ 0) eqn:E; [now apply Nat.eqb_eq in E | reflexivity].
  - rewrite IH, scanItem_thumbnail.
    destruct (Nat.eqb (ImageSources.mediaThumbnail (sources st)) 0) eqn:E; simpl.
    + destruct (truthyValue (Item.mediaThumbnail item)); simpl;
        rewrite ?E; reflexivity.
    + rewrite E. reflexivity.
Qed.

Lemma scanRawThumbnails_thumbnail (xmlContent : string) :
  ImageSources.mediaThumbnail (sources (scanRawThumbnails xmlContent))
  = List.length (mediaThumbnailMatches xmlContent).
Proof.
  unfold scanRawThumbnails.
  destruct (Nat.ltb 0 (List.length (mediaThumbnailMatches xmlContent))) eqn:E; simpl.
  - reflexivity.
  - apply Nat.ltb_ge in E. lia.
Qed.


(** The featured image flag does not read the [content] of an item. *)
Lemma hasFeaturedImage_ignores_content (items : list Item.t) (c : option string) :
  hasFeaturedImage (map (Item.withContent c) items) = hasFeaturedImage items.
Proof.
  induction items as [|item items IH]; simpl; [reflexivity|].
  unfold imageEnclosure. simpl. rewrite IH. reflexivity.
Qed.

(** C9: there is a valid document and a parsed feed of one item whose only
    image signal is an [img] tag in its content (no description, no full
    content, no media extension, no enclosure, no image) for which the
    report counts one [img] tag and says that there is no featured image;
    and the flag never depends on the content of the items. *)
Theorem img_in_content_not_featured :
  (forall parseDate formatDate,
      exists item report,
        Feed.items atomFeed = [item]
        /\ Item.description item = None /\ Item.contentEncoded item = None
        /\ Item.mediaContent item = None /\ Item.mediaThumbnail item = None
        /\ Item.enclosure item = None /\ Item.image item = None
        /\ holdsImg (Item.content item) = true
        /\ POST parseDate formatDate atomDocument url (Parsed atomFeed) = Analysed report
        /\ 1 <= ImageSources.imgTag (Report.imageSources report)
        /\ Report.hasFeaturedImage report = false)
  /\ (forall items c,
         hasFeaturedImage (map (Item.withContent c) items) = hasFeaturedImage items).
Proof.
  split.
  - intros parseDate formatDate. eexists. eexists.
    split; [reflexivity|]. do 6 (split; [reflexivity|]).
    split; [vm_compute; reflexivity|].
    split; [vm_compute; reflexivity|].
    split; [vm_compute; lia | vm_compute; reflexivity].
  - apply hasFeaturedImage_ignores_content.
Qed.

(** C6, at a document of two items that show the same thumbnail: the
    sample list of the report holds that URL twice. *)
Theorem sample_urls_repeat_thumbnail :
  forall parseDate formatDate,
    Validator.isValid (Validator.validateFeedXML thumbnailsDocument url) = true
    /\ exists report,
        POST parseDate formatDate thumbnailsDocument url (Parsed thumbnailsFeed)
        = Analysed report
        /\ Report.imageResolutions report
           = Some ["http://example.org/a.jpg"; "http://example.org/a.jpg"]
        /\ ~ NoDup ["http://example.org/a.jpg"; "http://example.org/a.jpg"].
Proof.
  intros parseDate formatDate. split; [vm_compute; reflexivity|].
  eexists. split; [vm_compute; reflexivity|]. split; [reflexivity|].
  intros H. inversion H as [|x l Hin _]. apply Hin. left. reflexivity.
Qed.

End ImageFacts.

(** ** The report *)

Module ReportFacts.
Import JsString Regex Analysis Temporal Samples.

(** The sample list is a prefix of [imageUrls] of at most two URLs. *)
Lemma imageResolutions_capped (xmlContent : string) (items : list Item.t) :
  List.length (imageResolutions xmlContent items) <= 2
  /\ exists more,
      imageUrls (scanImages xmlContent items)
      = imageResolutions xmlContent items ++ more.
Proof.
  unfold imageResolutions. split.
  - apply firstn_le_length.
  - exists (skipn 2 (imageUrls (scanImages xmlContent items))).
    symmetry. apply firstn_skipn.
Qed.

Lemma orUndefined_None (l : list string) : orUndefined l = None <-> l = [].
Proof. destruct l; simpl; split; congruence. Qed.

Lemma firstn_two_nil (l : list string) : firstn 2 l = [] <-> l = [].
Proof. destruct l; simpl; split; congruence. Qed.

(** C10 as stated fails: this document passes the validation, its parsed
    feed has no item, and the report has a sample list, because the pass
    over the raw text found the thumbnail of the channel. *)
Lemma empty_feed_keeps_raw_thumbnail :
  Validator.isValid (Validator.validateFeedXML emptyChannelDocument url) = true
  /\ Feed.items emptyChannelFeed = []
  /\ exists report,
      POST Examples.isoDate Examples.plainDate emptyChannelDocument url
        (Parsed emptyChannelFeed) = Analysed report
      /\ Report.imageResolutions report = Some ["http://example.org/logo.png"]
      /\ Report.imageResolutions report <> None.
Proof.
  split; [vm_compute; reflexivity|]. split; [reflexivity|].
  eexists. split; [vm_compute; reflexivity|]. split; [reflexivity | discriminate].
Qed.

(** C10, amended: for a document that passes the validation and parses to a
    feed without items, the report is valid, with an unknown content type,
    no last update, no post frequency, zero items and no featured image;
    the duplicate identifiers and the missing fields are left out; the
    sample list holds the first two URLs that the pass over the raw text
    found in thumbnail tags, and is left out exactly when that pass found
    none. *)
Theorem empty_feed_report
        (parseDate : string -> option Z) (formatDate : Z -> string)
        (xmlContent url : string) (feed : Feed.t) :
  Validator.isValid (Validator.validateFeedXML xmlContent url) = true ->
  Feed.items feed = [] ->
  exists report,
    POST parseDate formatDate xmlContent url (Parsed feed) = Analysed report
    /\ responseIsValid (POST parseDate formatDate xmlContent url (Parsed feed)) = true
    /\ Report.contentType report = unknown
    /\ Report.lastUpdate report = None
    /\ Report.postFrequency report = None
    /\ Report.itemCount report = 0
    /\ Report.hasFeaturedImage report = false
    /\ Report.duplicateGuids report = None
    /\ Report.missingFields report = None
    /\ Report.imageResolutions report
       = orUndefined (firstn 2 (imageUrls (scanRawThumbnails xmlContent)))
    /\ (Report.imageResolutions report = None
        <-> imageUrls (scanRawThumbnails xmlContent) = []).
Proof.
  intros Hvalid Hitems. unfold POST. rewrite Hvalid. simpl.
  eexists. split; [reflexivity|]. unfold analyse. rewrite Hitems. simpl.
  repeat (split; [reflexivity|]).
  unfold imageResolutions, scanImages. simpl.
  rewrite orUndefined_None. apply firstn_two_nil.
Qed.

(** The report of a valid document without item and without thumbnail. *)
Lemma empty_feed_report_witness :
  Validator.isValid (Validator.validateFeedXML bareChannelDocument url) = true
  /\ Feed.items emptyChannelFeed = []
  /\ exists report,
      POST Examples.isoDate Examples.plainDate bareChannelDocument url
        (Parsed emptyChannelFeed) = Analysed report
      /\ responseIsValid
           (POST Examples.isoDate Examples.plainDate bareChannelDocument url
              (Parsed emptyChannelFeed)) = true
      /\ Report.contentType report = unknown
      /\ Report.lastUpdate report = None
      /\ Report.postFrequency report = None
      /\ Report.itemCount report = 0
      /\ Report.hasFeaturedImage report = false
      /\ Report.duplicateGuids report = None
      /\ Report.missingFields report = None
      /\ Report.imageResolutions report
         = orUndefined (firstn 2 (imageUrls (scanRawThumbnails bareChannelDocument)))
      /\ (Report.imageResolutions report = None
          <-> imageUrls (scanRawThumbnails bareChannelDocument) = []).
Proof.
  split; [vm_compute; reflexivity|]. split; [reflexivity|].
  apply (empty_feed_report Examples.isoDate Examples.plainDate
           bareChannelDocument url emptyChannelFeed);
    [vm_compute; reflexivity | reflexivity].
Defined.

End ReportFacts.

(** ** The content type *)

Module ContentFacts.
Import JsString Regex Analysis Spec.

Example stripTags_nested_brackets : stripTags "a<<b>b>c<d" = "ab>c<d".
Proof. reflexivity. Qed.

Lemma bestContent_chosenContent (item : Item.t) :
  bestContent item = chosenContent item.
Proof.
  unfold bestContent, chosenContent, orElse.
  destruct (Item.contentEncoded item) as [[|a s]|];
    destruct (Item.content item) as [[|b t]|];
    destruct (Item.description item) as [[|c u]|]; reflexivity.
Qed.

Lemma member_not_closing (a : ascii) :
  member false (NoneOf ">") a = negb (Ascii.eqb a ">").
Proof.
  cbn [member inString sameChar]. now rewrite orb_false_r, Ascii.eqb_sym.
Qed.

Lemma literal_one (x a : ascii) (t : string) :
  literal false (String x EmptyString) (String a t)
  = if Ascii.eqb a x then Some t else None.
Proof.
  cbn [literal sameChar]. rewrite Ascii.eqb_sym.
  destruct (Ascii.eqb a x); [now destruct t | reflexivity].
Qed.

Lemma substring_all (u : string) : String.substring 0 (String.length u) u = u.
Proof. induction u as [|b u IHu]; simpl; [reflexivity | now rewrite IHu]. Qed.

(** The continuation that the pattern of a tag gives to its repetition:
    a closing bracket, then [f] on what remains. *)
Lemma greedy_until_closing {A : Type} (f : string -> option A) (t : string) :
  greedy false (NoneOf ">") t
    (fun rest => match literal false ">" rest with
                 | Some r => f r
                 | None => None
                 end)
  = match closingIndex t with
    | Some k => f (String.substring (S k) (String.length t - S k) t)
    | None => None
    end.
Proof.
  induction t as [|a t IH]; [reflexivity|].
  cbn [greedy closingIndex]. rewrite member_not_closing, literal_one, IH.
  destruct (Ascii.eqb a ">") eqn:E; cbn [negb].
  - simpl. now rewrite Nat.sub_0_r, substring_all.
  - destruct (closingIndex t) as [k|]; [|reflexivity].
    simpl. now destruct (f _).
Qed.

Lemma closingIndex_lt (t : string) (k : nat) :
  closingIndex t = Some k -> k < String.length t.
Proof.
  revert k; induction t as [|a t IH]; intros k; simpl; [discriminate|].
  destruct (Ascii.eqb a ">").
  - intros [= <-]. lia.
  - destruct (closingIndex t) as [j|]; [|discriminate].
    intros [= <-]. specialize (IH j eq_refl). lia.
Qed.

Lemma length_substring (n m : nat) (s : string) :
  n + m <= String.length s -> String.length (String.substring n m s) = m.
Proof.
  revert n m; induction s as [|a s IH]; intros n m H; simpl in *.
  - assert (n = 0) by lia. assert (m = 0) by lia. subst. reflexivity.
  - destruct n as [|n].
    + destruct m as [|m]; [reflexivity|]. simpl. rewrite (IH 0 m); [reflexivity | lia].
    + apply IH. lia.
Qed.

Lemma length_take (n : nat) (s : string) :
  n <= String.length s -> String.length (take n s) = n.
Proof.
  revert n; induction s as [|a s IH]; intros [|n] H; simpl in *;
    try reflexivity; try lia.
  rewrite IH; [reflexivity | lia].
Qed.

(** What the pattern of a tag matches at the start of a string: from an
    opening bracket to the first closing bracket after it. *)
Lemma matchHere_anyTag (a : ascii) (t : string) :
  matchHere false anyTag (String a t)
  = match Ascii.eqb a "<", closingIndex t with
    | true, Some k => Some (mkMatch (take (S (S k)) (String a t)) [])
    | _, _ => None
    end.
Proof.
  unfold matchHere, anyTag. cbn [seq run]. rewrite literal_one.
  destruct (Ascii.eqb a "<"); [|reflexivity].
  rewrite (greedy_until_closing
             (fun r => Some (mkMatch (consumed (String a t) r) []))).
  destruct (closingIndex t) as [k|] eqn:E; [|reflexivity].
  apply closingIndex_lt in E. unfold consumed.
  rewrite length_substring by lia. simpl String.length.
  replace (S (String.length t) - (String.length t - S k)) with (S (S k)) by lia.
  reflexivity.
Qed.

Lemma matchHere_anyTag_empty : matchHere false anyTag EmptyString = None.
Proof. reflexivity. Qed.

(** The replacement of every tag by nothing is the text without its tags. *)
Lemma replaceFrom_withoutTags (s : string) :
  replaceFrom false anyTag EmptyString s 0 = withoutTags false s
  /\ forall k, closingIndex s = Some k ->
               replaceFrom false anyTag EmptyString s (S k) = withoutTags true s.
Proof.
  induction s as [|a t [IH0 IHk]].
  - split; [reflexivity | discriminate].
  - split.
    + cbn [replaceFrom]. rewrite matchHere_anyTag. cbn [withoutTags].
      destruct (Ascii.eqb a "<"); [|now rewrite IH0].
      destruct (closingIndex t) as [k|] eqn:E; [|now rewrite IH0].
      cbn [text]. rewrite length_take.
      * cbn [String.append]. now apply IHk.
      * apply closingIndex_lt in E. simpl. lia.
    + intros k. cbn [closingIndex replaceFrom withoutTags].
      destruct (Ascii.eqb a ">").
      * intros [= <-]. exact IH0.
      * destruct (closingIndex t) as [j|]; [|discriminate].
        intros [= <-]. now apply IHk.
Qed.

Lemma stripTags_withoutTags (s : string) : stripTags s = withoutTags false s.
Proof. apply replaceFrom_withoutTags. Qed.

Lemma classify_full (n : nat) : classify n = full <-> 500 < n.
Proof.
  unfold classify. destruct (Nat.ltb 500 n) eqn:E.
  - apply Nat.ltb_lt in E. tauto.
  - apply Nat.ltb_ge in E. destruct (Nat.ltb 0 n); split; (discriminate || lia).
Qed.

Lemma classify_excerpt (n : nat) : classify n = excerpt <-> 0 < n <= 500.
Proof.
  unfold classify. destruct (Nat.ltb 500 n) eqn:E.
  - apply Nat.ltb_lt in E. split; [discriminate | lia].
  - apply Nat.ltb_ge in E. destruct (Nat.ltb 0 n) eqn:F.
    + apply Nat.ltb_lt in F. split; [lia | reflexivity].
    + apply Nat.ltb_ge in F. split; [discriminate | lia].
Qed.

Lemma classify_unknown (n : nat) : classify n = unknown <-> n = 0.
Proof.
  unfold classify. destruct (Nat.ltb 500 n) eqn:E.
  - apply Nat.ltb_lt in E. split; [discriminate | lia].
  - destruct (Nat.ltb 0 n) eqn:F.
    + apply Nat.ltb_lt in F. split; [discriminate | lia].
    + apply Nat.ltb_ge in F. split; [lia | reflexivity].
Qed.

(** C8: for a feed with at least one item, the content type is decided by
    the first item alone: by the length [n] of its content, chosen by
    priority (full-content extension, content, description, else empty)
    and stripped of its markup tags.  It is [full] exactly when [n > 500],
    [excerpt] exactly when [0 < n <= 500] and [unknown] exactly when
    [n = 0]; so 500 gives [excerpt] and 501 gives [full]. *)
Theorem contentType_by_stripped_length (firstItem : Item.t) (rest : list Item.t) :
  let n := strippedLength firstItem in
  String.length (stripTags (bestContent firstItem)) = n
  /\ (contentType (firstItem :: rest) = full <-> 500 < n)
  /\ (contentType (firstItem :: rest) = excerpt <-> 0 < n <= 500)
  /\ (contentType (firstItem :: rest) = unknown <-> n = 0)
  /\ (n = 500 -> contentType (firstItem :: rest) = excerpt)
  /\ (n = 501 -> contentType (firstItem :: rest) = full).
Proof.
  intros n.
  assert (Hn : String.length (stripTags (bestContent firstItem)) = n).
  { unfold n, strippedLength.
    now rewrite stripTags_withoutTags, bestContent_chosenContent. }
  unfold contentType. rewrite Hn.
  split; [reflexivity|].
  split; [apply classify_full|].
  split; [apply classify_excerpt|].
  split; [apply classify_unknown|].
  split; intros H.
  - apply classify_excerpt. lia.
  - apply classify_full. lia.
Qed.

End ContentFacts.

(** ** Numbers *)

Module NumberFacts.
Import JsNumber.

(** *** Values *)

Example tenth_value : tenth = S754_finite false 7205759403792794 (-56).
Proof. reflexivity. Qed.

Example one_value : ofZ 1 = S754_finite false 4503599627370496 (-52).
Proof. reflexivity. Qed.

Example round_half_up :
  round (div (ofZ 5) (ofZ 2)) = IntValue 3
  /\ round (div (ofZ (-5)) (ofZ 2)) = IntValue (-2)
  /\ round (div (ofZ 7) (ofZ 4)) = IntValue 2
  /\ round (div (ofZ 1) tenth) = IntValue 10.
Proof. repeat split. Qed.

(** *** No operation on integers makes a NaN *)








(** *** Integers below 2^53 are finite numbers *)

Lemma digits2_pos_iter (p k : positive) :
  digits2_pos (Pos.iter xO p k) = (digits2_pos p + k)%positive.
Proof.
  induction k as [|k IH] using Pos.peano_ind.
  - simpl. lia.
  - rewrite Pos.iter_succ. simpl. rewrite IH. lia.
Qed.

Lemma digits2_pos_bound (n : nat) (p : positive) :
  (Zpos p < 2 ^ Z.of_nat n)%Z -> (Zpos (digits2_pos p) <= Z.of_nat n)%Z.
Proof.
  revert n. induction p as [p IH|p IH|]; intros n H.
  - destruct n as [|n]; [simpl in H; lia|].
    rewrite Nat2Z.inj_succ, Z.pow_succ_r in H by lia.
    specialize (IH n ltac:(lia)). simpl. lia.
  - destruct n as [|n]; [simpl in H; lia|].
    rewrite Nat2Z.inj_succ, Z.pow_succ_r in H by lia.
    specialize (IH n ltac:(lia)). simpl. lia.
  - destruct n as [|n]; [simpl in H; lia|]. simpl. lia.
Qed.

Lemma binary_round_aux_exact (s : bool) (mz : positive) (ez : Z) :
  Zpos (digits2_pos mz) = 53%Z -> (-1074 <= ez <= 971)%Z ->
  binary_round_aux prec emax s (Zpos mz) ez loc_Exact = S754_finite s mz ez.
Proof.
  intros Hd He. unfold binary_round_aux, shr_fexp.
  cbn [Zdigits2 shr_record_of_loc]. rewrite Hd.
  replace (fexp prec emax (53 + ez) - ez)%Z with 0%Z
    by (unfold fexp, emin, prec, emax; lia).
  cbn [shr shr_m loc_of_shr_record round_nearest_even Zdigits2 shr_record_of_loc].
  rewrite Hd.
  replace (fexp prec emax (53 + ez) - ez)%Z with 0%Z
    by (unfold fexp, emin, prec, emax; lia).
  cbn [shr shr_m].
  replace (Z.leb ez (emax - prec)) with true; [reflexivity|].
  symmetry. apply Z.leb_le. unfold emax, prec. lia.
Qed.

Lemma ofZ_finite (z : Z) :
  (0 < z < 2 ^ 53)%Z -> exists m e, ofZ z = S754_finite false m e.
Proof.
  intros [Hpos Hlt]. destruct z as [|p|p]; try lia.
  pose proof (digits2_pos_bound 53 p Hlt) as Hd.
  unfold ofZ, binary_normalize, binary_round, shl_align.
  replace (fexp prec emax (Zpos (digits2_pos p) + 0))
    with (Zpos (digits2_pos p) - 53)%Z
    by (unfold fexp, emin, prec, emax; lia).
  destruct (Zpos (digits2_pos p) - 53 - 0)%Z as [|k|k] eqn:E; try lia.
  - exists p, 0%Z. apply binary_round_aux_exact; lia.
  - eexists. eexists. apply binary_round_aux_exact.
    + rewrite digits2_pos_iter. lia.
    + lia.
Qed.

(** *** Comparisons *)




Section Exact.
Local Open Scope Z_scope.

(** *** Subtraction of integers is exact up to the final rounding *)

Lemma iter_pos_iter {A : Type} (f : A -> A) (n : positive) (x : A) :
  iter_pos f n x = Pos.iter f x n.
Proof.
  revert x. induction n as [n IH|n IH|]; intros x; simpl.
  - rewrite !IH. now rewrite <- !Pos.iter_swap.
  - now rewrite !IH.
  - reflexivity.
Qed.

Lemma iter_xO_value (p k : positive) :
  Zpos (Pos.iter xO p k) = Zpos p * 2 ^ Zpos k.
Proof.
  induction k as [|k IH] using Pos.peano_ind.
  - simpl. lia.
  - rewrite Pos.iter_succ, Pos2Z.inj_succ, Z.pow_succ_r by lia.
    rewrite Pos2Z.inj_xO, IH. ring.
Qed.

Lemma shr_zeros (q j : positive) :
  Pos.iter shr_1 (Build_shr_record (Zpos (Pos.iter xO q j)) false false) j
  = Build_shr_record (Zpos q) false false.
Proof.
  induction j as [|j IH] using Pos.peano_ind.
  - reflexivity.
  - rewrite (Pos.iter_succ j positive xO), (Pos.iter_succ j shr_record shr_1).
    rewrite <- Pos.iter_swap. exact IH.
Qed.

Lemma fexp_digits (d : positive) (e : Z) :
  fexp prec emax (Zpos d + e) = Z.max (Zpos d + e - 53) (-1074).
Proof. reflexivity. Qed.

(** Trailing zero bits of the mantissa do not change the rounding. *)
Lemma binary_round_aux_shift (s : bool) (m j : positive) (e : Z) :
  0 <= fexp prec emax (Zpos (digits2_pos m) + e) - e ->
  binary_round_aux prec emax s (Zpos (Pos.iter xO m j)) (e - Zpos j) loc_Exact
  = binary_round_aux prec emax s (Zpos m) e loc_Exact.
Proof.
  intros Hn. unfold binary_round_aux.
  assert (H : shr_fexp prec emax (Zpos (Pos.iter xO m j)) (e - Zpos j) loc_Exact
              = shr_fexp prec emax (Zpos m) e loc_Exact).
  { unfold shr_fexp. cbn [Zdigits2 shr_record_of_loc].
    rewrite digits2_pos_iter, Pos2Z.inj_add.
    replace (Zpos (digits2_pos m) + Zpos j + (e - Zpos j))
      with (Zpos (digits2_pos m) + e) by ring.
    remember (fexp prec emax (Zpos (digits2_pos m) + e)) as E.
    destruct (E - e) as [|q|q] eqn:En; [| |lia].
    - replace (E - (e - Zpos j)) with (Zpos j) by lia.
      unfold shr. rewrite iter_pos_iter, shr_zeros. f_equal. ring.
    - replace (E - (e - Zpos j)) with (Zpos (q + j)) by lia.
      unfold shr. rewrite !iter_pos_iter, Pos.iter_add, shr_zeros. f_equal. lia. }
  now rewrite H.
Qed.

Lemma binary_round_shift (s : bool) (p k : positive) :
  binary_round prec emax s (Pos.iter xO p k) (- Zpos k)
  = binary_round prec emax s p 0.
Proof.
  unfold binary_round.
  rewrite digits2_pos_iter, Pos2Z.inj_add.
  replace (Zpos (digits2_pos p) + Zpos k + - Zpos k) with (Zpos (digits2_pos p) + 0) by ring.
  remember (fexp prec emax (Zpos (digits2_pos p) + 0)) as E.
  assert (HE : E = Zpos (digits2_pos p) - 53).
  { subst E. rewrite fexp_digits. lia. }
  unfold shl_align.
  destruct (E - 0) as [|d'|d'] eqn:E0.
  - (* E = 0 *)
    replace (E - - Zpos k) with (Zpos k) by lia.
    replace (- Zpos k) with (0 - Zpos k) by lia.
    apply binary_round_aux_shift. rewrite <- HeqE. lia.
  - (* E > 0 *)
    replace (E - - Zpos k) with (Zpos (d' + k)) by lia.
    replace (- Zpos k) with (0 - Zpos k) by lia.
    apply binary_round_aux_shift. rewrite <- HeqE. lia.
  - (* E < 0 *)
    destruct (E - - Zpos k) as [|d|d] eqn:E1.
    + (* k = -E *)
      assert (k = d') by lia. subst d'.
      replace (- Zpos k) with E by lia. reflexivity.
    + (* k > -E *)
      assert (Hk : k = (d' + d)%positive) by lia.
      rewrite Hk, Pos.add_comm, Pos.iter_add.
      replace (- Zpos (d + d')) with (E - Zpos d) by lia.
      apply binary_round_aux_shift.
      rewrite digits2_pos_iter, fexp_digits. lia.
    + (* k < -E *)
      assert (Hd : d' = (d + k)%positive) by lia.
      rewrite Hd, Pos.iter_add. reflexivity.
Qed.

(** The number of an integer below 2^53 holds it exactly. *)
Lemma binary_round_form (p : positive) :
  Zpos p < 2 ^ 53 ->
  exists m e,
    (forall s, binary_round prec emax s p 0 = S754_finite s m e)
    /\ -52 <= e <= 0 /\ Zpos m = Zpos p * 2 ^ (- e).
Proof.
  intros Hlt. pose proof (digits2_pos_bound 53 p Hlt) as Hd.
  unfold binary_round, shl_align.
  replace (fexp prec emax (Zpos (digits2_pos p) + 0))
    with (Zpos (digits2_pos p) - 53)
    by (unfold fexp, emin, prec, emax; lia).
  destruct (Zpos (digits2_pos p) - 53 - 0) as [|k|k] eqn:E; try lia.
  - exists p, 0. split; [|split; [lia | simpl; lia]].
    intros s. apply binary_round_aux_exact; lia.
  - exists (Pos.iter xO p k), (Zpos (digits2_pos p) - 53).
    split; [|split; [lia|]].
    + intros s. apply binary_round_aux_exact; [|lia].
      rewrite digits2_pos_iter. lia.
    + rewrite iter_xO_value.
      now replace (- (Zpos (digits2_pos p) - 53)) with (Zpos k) by lia.
Qed.

Lemma shl_align_value (m : positive) (e e' : Z) :
  e' <= e -> Zpos (fst (shl_align m e e')) = Zpos m * 2 ^ (e - e').
Proof.
  intros Hle. unfold shl_align. destruct (e' - e) as [|d|d] eqn:E; try lia.
  - replace (e - e') with 0 by lia. simpl. lia.
  - simpl. rewrite iter_xO_value. now replace (e - e') with (Zpos d) by lia.
Qed.

Lemma binary_normalize_shift (z k : Z) :
  0 <= k ->
  binary_normalize prec emax (z * 2 ^ k) (- k) false
  = binary_normalize prec emax z 0 false.
Proof.
  intros Hk. destruct k as [|k|k]; [| |lia].
  - simpl. now rewrite Z.mul_1_r.
  - destruct z as [|p|p].
    + reflexivity.
    + rewrite <- iter_xO_value. apply binary_round_shift.
    + change (Zneg p) with (- Zpos p). rewrite Z.mul_opp_l, <- iter_xO_value.
      apply binary_round_shift.
Qed.

(** The signed integer a finite number stands for, scaled by [2 ^ (- e)]. *)
Lemma sub_finite (sa sb : bool) (ma mb : positive) (ea eb a b : Z) :
  ea <= 0 -> eb <= 0 ->
  cond_Zopp sa (Zpos ma) = a * 2 ^ (- ea) ->
  cond_Zopp sb (Zpos mb) = b * 2 ^ (- eb) ->
  sub (S754_finite sa ma ea) (S754_finite sb mb eb) = ofZ (a - b).
Proof.
  intros Hea Heb Ha Hb. unfold sub, SFsub, ofZ.
  set (ez := Z.min ea eb).
  assert (Hez : ez <= ea /\ ez <= eb /\ ez <= 0) by (unfold ez; lia).
  rewrite <- (binary_normalize_shift (a - b) (- ez)) by lia.
  rewrite Z.opp_involutive. f_equal.
  assert (Hs : forall s m, cond_Zopp s (Zpos (fst (shl_align m ea ez)))
                           = cond_Zopp s (Zpos m) * 2 ^ (ea - ez)).
  { intros s m. rewrite shl_align_value by lia.
    destruct s; cbn [cond_Zopp]; [ring | reflexivity]. }
  assert (Hs' : forall s m, cond_Zopp s (Zpos (fst (shl_align m eb ez)))
                            = cond_Zopp s (Zpos m) * 2 ^ (eb - ez)).
  { intros s m. rewrite shl_align_value by lia.
    destruct s; cbn [cond_Zopp]; [ring | reflexivity]. }
  rewrite Hs, Hs', Ha, Hb.
  rewrite <- !Z.mul_assoc, <- !Z.pow_add_r by lia.
  replace (- ea + (ea - ez)) with (- ez) by ring.
  replace (- eb + (eb - ez)) with (- ez) by ring.
  ring.
Qed.

Lemma ofZ_form (z : Z) :
  z <> 0 -> Z.abs z < 2 ^ 53 ->
  exists s m e,
    ofZ z = S754_finite s m e /\ e <= 0
    /\ cond_Zopp s (Zpos m) = z * 2 ^ (- e)
    /\ ofZ (- z) = S754_finite (negb s) m e.
Proof.
  intros Hz Hlt. destruct z as [|p|p]; [congruence| |].
  - destruct (binary_round_form p ltac:(lia)) as [m [e [Hf [He Hm]]]].
    exists false, m, e. split; [apply Hf|]. split; [lia|].
    split; [exact Hm | apply Hf].
  - destruct (binary_round_form p ltac:(lia)) as [m [e [Hf [He Hm]]]].
    exists true, m, e. split; [apply Hf|]. split; [lia|].
    split; [|apply Hf].
    cbn [cond_Zopp]. rewrite Hm. change (Zneg p) with (- Zpos p). ring.
Qed.

(** The difference of two integers below 2^53 in magnitude, as numbers, is
    the number nearest to their exact difference. *)
Lemma sub_ofZ (a b : Z) :
  Z.abs a < 2 ^ 53 -> Z.abs b < 2 ^ 53 ->
  sub (ofZ a) (ofZ b) = ofZ (a - b).
Proof.
  intros Ha Hb.
  destruct (Z.eq_dec a 0) as [->|Hna]; destruct (Z.eq_dec b 0) as [->|Hnb].
  - reflexivity.
  - destruct (ofZ_form b Hnb Hb) as [s [m [e [Hf [_ [_ Hopp]]]]]].
    rewrite Hf. simpl (0 - b). rewrite Hopp. reflexivity.
  - destruct (ofZ_form a Hna Ha) as [s [m [e [Hf _]]]].
    rewrite Z.sub_0_r, Hf. reflexivity.
  - destruct (ofZ_form a Hna Ha) as [sa [ma [ea [Hfa [Hea [Hva _]]]]]].
    destruct (ofZ_form b Hnb Hb) as [sb [mb [eb [Hfb [Heb [Hvb _]]]]]].
    rewrite Hfa, Hfb. now apply sub_finite.
Qed.

(** *** The sign of a difference *)

Lemma digits2_pos_range (p : positive) :
  2 ^ (Zpos (digits2_pos p) - 1) <= Zpos p < 2 ^ Zpos (digits2_pos p).
Proof.
  induction p as [p IH|p IH|]; simpl digits2_pos.
  - rewrite Pos2Z.inj_succ.
    replace (Z.succ (Zpos (digits2_pos p)) - 1) with (Z.succ (Zpos (digits2_pos p) - 1)) by lia.
    rewrite !Z.pow_succ_r by lia. lia.
  - rewrite Pos2Z.inj_succ.
    replace (Z.succ (Zpos (digits2_pos p)) - 1) with (Z.succ (Zpos (digits2_pos p) - 1)) by lia.
    rewrite !Z.pow_succ_r by lia. lia.
  - simpl. lia.
Qed.

Lemma digits2_pos_unique (p : positive) (n : Z) :
  2 ^ (n - 1) <= Zpos p < 2 ^ n -> 1 <= n -> Zpos (digits2_pos p) = n.
Proof.
  intros [Hlo Hhi] Hn. pose proof (digits2_pos_range p) as [Hl Hh].
  destruct (Z.lt_trichotomy (Zpos (digits2_pos p)) n) as [H|[H|H]]; [|exact H|].
  - assert (2 ^ Zpos (digits2_pos p) <= 2 ^ (n - 1)) by (apply Z.pow_le_mono_r; lia). lia.
  - assert (2 ^ n <= 2 ^ (Zpos (digits2_pos p) - 1)) by (apply Z.pow_le_mono_r; lia). lia.
Qed.

(** The second rounding step on a mantissa of 53 or 54 bits. *)
Lemma shr_fexp_positive (m : positive) (e : Z) :
  53 <= Zpos (digits2_pos m) <= 54 -> -1074 <= e ->
  exists m' e',
    shr_fexp prec emax (Zpos m) e loc_Exact
    = (Build_shr_record (Zpos m') (shr_r (fst (shr_fexp prec emax (Zpos m) e loc_Exact)))
         (shr_s (fst (shr_fexp prec emax (Zpos m) e loc_Exact))), e')
    /\ e <= e' <= e + 1.
Proof.
  intros Hd He. unfold shr_fexp. cbn [Zdigits2 shr_record_of_loc].
  assert (Hf : fexp prec emax (Zpos (digits2_pos m) + e) = Zpos (digits2_pos m) + e - 53).
  { unfold fexp, emin, prec, emax. lia. }
  rewrite Hf.
  destruct (Z.eq_dec (Zpos (digits2_pos m)) 53) as [E|E].
  - replace (Zpos (digits2_pos m) + e - 53 - e) with 0 by lia.
    exists m, e. split; [reflexivity | lia].
  - replace (Zpos (digits2_pos m) + e - 53 - e) with 1 by lia.
    destruct m as [q|q|]; [| |simpl in Hd; lia].
    + exists q, (e + 1). split; [reflexivity | lia].
    + exists q, (e + 1). split; [reflexivity | lia].
Qed.

(** An integer below 2^54 in magnitude becomes a finite number. *)
Lemma binary_round_finite (p : positive) :
  Zpos p < 2 ^ 54 ->
  exists m e, forall s, binary_round prec emax s p 0 = S754_finite s m e.
Proof.
  intros Hlt.
  destruct (Z_lt_le_dec (Zpos p) (2 ^ 53)) as [Hs|Hl].
  { destruct (binary_round_form p Hs) as [m [e [Hf _]]]. eauto. }
  assert (Hd : Zpos (digits2_pos p) = 54)
    by (apply digits2_pos_unique; [split; [exact Hl | exact Hlt] | lia]).
  unfold binary_round, shl_align. rewrite Hd.
  replace (fexp prec emax (54 + 0)) with 1 by reflexivity.
  cbn [Z.sub Z.opp Z.add Z.pos_sub].
  unfold binary_round_aux.
  assert (Hstep : exists q l,
             shr_fexp prec emax (Zpos p) 0 loc_Exact
             = (shr_record_of_loc (Zpos q) l, 1)
             /\ Zpos (digits2_pos q) = 53
             /\ (l = loc_Exact \/ l = loc_Inexact Eq)).
  { unfold shr_fexp. cbn [Zdigits2 shr_record_of_loc]. rewrite Hd.
    replace (fexp prec emax (54 + 0) - 0) with 1 by reflexivity.
    destruct p as [q|q|]; [| |simpl in Hd; lia]; simpl in Hd.
    - exists q, (loc_Inexact Eq). split; [reflexivity|]. split; [lia | now right].
    - exists q, loc_Exact. split; [reflexivity|]. split; [lia | now left]. }
  destruct Hstep as [q [l [-> [Hq Hl']]]].
  assert (Hround : exists m2,
             round_nearest_even (shr_m (shr_record_of_loc (Zpos q) l))
               (loc_of_shr_record (shr_record_of_loc (Zpos q) l)) = Zpos m2
             /\ 53 <= Zpos (digits2_pos m2) <= 54).
  { destruct Hl' as [-> | ->]; cbn [shr_record_of_loc shr_m loc_of_shr_record round_nearest_even].
    - exists q. split; [reflexivity | lia].
    - destruct (Z.even (Zpos q)).
      + exists q. split; [reflexivity | lia].
      + exists (q + 1)%positive. split; [reflexivity|].
        pose proof (digits2_pos_range q) as Hr. rewrite Hq in Hr.
        pose proof (digits2_pos_range (q + 1)) as Hr'.
        destruct (Z_lt_le_dec (Zpos (digits2_pos (q + 1))) 53) as [H|H];
          [assert (2 ^ Zpos (digits2_pos (q + 1)) <= 2 ^ 52)
             by (apply Z.pow_le_mono_r; lia); simpl in Hr; lia|].
        destruct (Z_lt_le_dec 54 (Zpos (digits2_pos (q + 1)))) as [H'|H']; [|lia].
        assert (2 ^ 54 <= 2 ^ (Zpos (digits2_pos (q + 1)) - 1))
          by (apply Z.pow_le_mono_r; lia). simpl in Hr. lia. }
  destruct Hround as [m2 [-> Hm2]].
  destruct (shr_fexp_positive m2 1 Hm2 ltac:(lia)) as [m' [e' [Hs' He']]].
  rewrite Hs'. cbn [shr_m].
  exists m', e'. intros s.
  replace (Z.leb e' (emax - prec)) with true; [reflexivity|].
  symmetry. apply Z.leb_le. unfold emax, prec. lia.
Qed.

Lemma ofZ_sign (z : Z) :
  Z.abs z < 2 ^ 54 ->
  ltb (ofZ z) (ofZ 0) = (z <? 0) /\ ltb (ofZ 0) (ofZ z) = (0 <? z).
Proof.
  intros Hz. destruct z as [|p|p].
  - split; reflexivity.
  - destruct (binary_round_finite p ltac:(lia)) as [m [e Hf]].
    unfold ofZ, binary_normalize. rewrite Hf. split; reflexivity.
  - destruct (binary_round_finite p ltac:(lia)) as [m [e Hf]].
    unfold ofZ, binary_normalize. rewrite Hf. split; reflexivity.
Qed.

(** The comparator of the sort: the sign of [a.getTime() - b.getTime()]
    is the sign of the difference of the two time values. *)
Lemma comparator_sign (a b : Z) :
  Z.abs a <= 8640000000000000 -> Z.abs b <= 8640000000000000 ->
  ltb (sub (ofZ a) (ofZ b)) (ofZ 0) = (a <? b)
  /\ ltb (ofZ 0) (sub (ofZ a) (ofZ b)) = (b <? a).
Proof.
  intros Ha Hb. rewrite sub_ofZ by lia.
  destruct (ofZ_sign (a - b)) as [H1 H2]; [lia|].
  rewrite H1, H2. split.
  - destruct (Z.ltb_spec (a - b) 0), (Z.ltb_spec a b); lia || reflexivity.
  - destruct (Z.ltb_spec 0 (a - b)), (Z.ltb_spec b a); lia || reflexivity.
Qed.

End Exact.

End NumberFacts.

(** ** The sorted dates *)

Module SortFacts.
Import Temporal Spec.
Local Open Scope Z_scope.

Lemma Forall_Permutation {A : Type} (P : A -> Prop) (l l' : list A) :
  Permutation l l' -> Forall P l -> Forall P l'.
Proof.
  intros Hp. rewrite !Forall_forall. intros H x Hx.
  apply H. apply (Permutation_in _ (Permutation_sym Hp) Hx).
Qed.

Lemma insertAscending_In (d x : Z) (l : list Z) :
  In x (insertAscending d l) <-> x = d \/ In x l.
Proof.
  induction l as [|y l IH]; simpl.
  - intuition.
  - destruct (d <? y); simpl; [intuition|]. rewrite IH. intuition.
Qed.

Lemma insertAscending_length (d : Z) (l : list Z) :
  List.length (insertAscending d l) = S (List.length l).
Proof.
  induction l as [|y l IH]; simpl; [reflexivity|].
  destruct (d <? y); simpl; [reflexivity | now rewrite IH].
Qed.

Lemma insertAscending_Permutation (d : Z) (l : list Z) :
  Permutation (insertAscending d l) (d :: l).
Proof.
  induction l as [|y l IH]; simpl; [reflexivity|].
  destruct (d <? y); [reflexivity|].
  rewrite IH. apply perm_swap.
Qed.

Lemma insertAscending_sorted (d : Z) (l : list Z) :
  StronglySorted Z.le l -> StronglySorted Z.le (insertAscending d l).
Proof.
  induction l as [|y l IH]; intros Hs; simpl.
  - constructor; constructor.
  - apply StronglySorted_inv in Hs as [Hl Hy].
    destruct (d <? y) eqn:E.
    + apply Z.ltb_lt in E. constructor; [constructor; assumption|].
      constructor; [lia|]. eapply Forall_impl; [|exact Hy]. simpl. intros; lia.
    + apply Z.ltb_ge in E. constructor; [apply IH; exact Hl|].
      apply Forall_forall. intros x Hx. apply insertAscending_In in Hx as [->|Hx]; [exact E|].
      rewrite Forall_forall in Hy. now apply Hy.
Qed.

Lemma ascendingFrom_facts (l acc : list Z) :
  StronglySorted Z.le acc ->
  let sorted := fold_left (fun sorted d => insertAscending d sorted) l acc in
  StronglySorted Z.le sorted /\ Permutation sorted (acc ++ l).
Proof.
  revert acc. induction l as [|d l IH]; intros acc Hacc; simpl.
  - split; [exact Hacc | now rewrite app_nil_r].
  - destruct (IH (insertAscending d acc) (insertAscending_sorted d acc Hacc)) as [Hs Hp].
    split; [exact Hs|]. rewrite Hp, insertAscending_Permutation.
    apply Permutation_middle.
Qed.

Lemma ascending_sorted (l : list Z) : StronglySorted Z.le (ascending l).
Proof. apply (ascendingFrom_facts l []). constructor. Qed.

Lemma ascending_Permutation (l : list Z) : Permutation (ascending l) l.
Proof. apply (ascendingFrom_facts l []). constructor. Qed.

(** The least and the greatest element of a list are unique. *)
Lemma least_unique (l : list Z) (m m' : Z) :
  In m l -> Forall (Z.le m) l -> In m' l -> Forall (Z.le m') l -> m = m'.
Proof.
  rewrite !Forall_forall. intros Hin H Hin' H'.
  specialize (H m' Hin'). specialize (H' m Hin). lia.
Qed.

Lemma greatest_unique (l : list Z) (m m' : Z) :
  In m l -> Forall (fun x => x <= m) l ->
  In m' l -> Forall (fun x => x <= m') l -> m = m'.
Proof.
  rewrite !Forall_forall. intros Hin H Hin' H'.
  specialize (H m' Hin'). specialize (H' m Hin). lia.
Qed.

Lemma fold_min_least (seed : Z) (l : list Z) :
  let m := fold_right Z.min seed l in
  (m = seed \/ In m l) /\ m <= seed /\ Forall (Z.le m) l.
Proof.
  induction l as [|x l IH]; simpl.
  - split; [now left|]. split; [lia | constructor].
  - destruct IH as [Hin [Hle Hall]].
    set (m := fold_right Z.min seed l) in *.
    destruct (Z.min_spec x m) as [[Hlt ->]|[Hge ->]].
    + split; [right; now left|]. split; [lia|].
      constructor; [lia|]. eapply Forall_impl; [|exact Hall]. simpl; intros; lia.
    + split; [destruct Hin; [now left | right; now right]|].
      split; [lia|]. constructor; [lia | exact Hall].
Qed.

Lemma fold_max_greatest (seed : Z) (l : list Z) :
  let m := fold_right Z.max seed l in
  (m = seed \/ In m l) /\ seed <= m /\ Forall (fun x => x <= m) l.
Proof.
  induction l as [|x l IH]; simpl.
  - split; [now left|]. split; [lia | constructor].
  - destruct IH as [Hin [Hle Hall]].
    set (m := fold_right Z.max seed l) in *.
    destruct (Z.max_spec x m) as [[Hlt ->]|[Hge ->]].
    + split; [destruct Hin; [now left | right; now right]|].
      split; [lia|]. constructor; [lia | exact Hall].
    + split; [right; now left|]. split; [lia|].
      constructor; [lia|]. eapply Forall_impl; [|exact Hall]. simpl; intros; lia.
Qed.

Lemma earliest_least (l : list Z) :
  l <> [] -> In (earliest l) l /\ Forall (Z.le (earliest l)) l.
Proof.
  destruct l as [|x l]; [congruence|]. intros _.
  destruct (fold_min_least x (x :: l)) as [Hin [_ Hall]].
  unfold earliest. simpl hd.
  split; [destruct Hin as [->|Hin]; [now left | exact Hin] | exact Hall].
Qed.

Lemma latest_greatest (l : list Z) :
  l <> [] -> In (latest l) l /\ Forall (fun x => x <= latest l) l.
Proof.
  destruct l as [|x l]; [congruence|]. intros _.
  destruct (fold_max_greatest x (x :: l)) as [Hin [_ Hall]].
  unfold latest. simpl hd.
  split; [destruct Hin as [->|Hin]; [now left | exact Hin] | exact Hall].
Qed.

Lemma sorted_hd_least (l : list Z) :
  StronglySorted Z.le l -> l <> [] ->
  In (hd 0 l) l /\ Forall (Z.le (hd 0 l)) l.
Proof.
  destruct l as [|x l]; [congruence|]. intros Hs _.
  apply StronglySorted_inv in Hs as [_ Hx]. simpl.
  split; [now left|]. constructor; [lia | exact Hx].
Qed.

Lemma sorted_last_greatest (l : list Z) :
  StronglySorted Z.le l -> l <> [] ->
  In (last l 0) l /\ Forall (fun x => x <= last l 0) l.
Proof.
  induction l as [|x l IH]; [congruence|]. intros Hs _.
  apply StronglySorted_inv in Hs as [Hl Hx].
  destruct l as [|y l].
  - simpl. split; [now left|]. constructor; [lia | constructor].
  - destruct (IH Hl ltac:(discriminate)) as [Hin Hall].
    change (last (x :: y :: l) 0) with (last (y :: l) 0).
    split; [now right|]. constructor; [|exact Hall].
    rewrite Forall_forall in Hx. now apply Hx.
Qed.

Lemma ascending_nonempty (l : list Z) : l <> [] -> ascending l <> [].
Proof.
  intros Hl Hs. pose proof (ascending_Permutation l) as Hp.
  rewrite Hs in Hp. apply Permutation_nil in Hp. contradiction.
Qed.

Lemma ascending_hd (l : list Z) : l <> [] -> hd 0 (ascending l) = earliest l.
Proof.
  intros Hl.
  destruct (sorted_hd_least _ (ascending_sorted l) (ascending_nonempty l Hl)) as [Hin Hall].
  destruct (earliest_least l Hl) as [Hin' Hall'].
  pose proof (ascending_Permutation l) as Hp.
  apply (least_unique l); auto.
  - now apply (Permutation_in _ Hp).
  - exact (Forall_Permutation _ _ _ Hp Hall).
Qed.

Lemma ascending_last (l : list Z) : l <> [] -> last (ascending l) 0 = latest l.
Proof.
  intros Hl.
  destruct (sorted_last_greatest _ (ascending_sorted l) (ascending_nonempty l Hl)) as [Hin Hall].
  destruct (latest_greatest l Hl) as [Hin' Hall'].
  pose proof (ascending_Permutation l) as Hp.
  apply (greatest_unique l); auto.
  - now apply (Permutation_in _ Hp).
  - exact (Forall_Permutation _ _ _ Hp Hall).
Qed.

Lemma ascending_length (l : list Z) : List.length (ascending l) = List.length l.
Proof. apply Permutation_length, ascending_Permutation. Qed.

(** The average computed from the timestamps in ascending order, with the
    subtractions of numbers, is the average of the specification, with
    the exact differences: time values and lengths are integers that
    numbers hold exactly. *)
Lemma averageDays_ascending (dates : list Z) :
  dates <> [] ->
  Forall (fun t => Z.abs t <= 8640000000000000) dates ->
  Z.of_nat (List.length dates) < 2 ^ 53 ->
  averageDays (ascending dates) = averageInterval dates.
Proof.
  intros Hd Hb Hlen. unfold averageDays, averageInterval.
  rewrite ascending_last, ascending_hd, ascending_length by exact Hd.
  rewrite Forall_forall in Hb.
  pose proof (Hb _ (proj1 (earliest_least dates Hd))) as He.
  pose proof (Hb _ (proj1 (latest_greatest dates Hd))) as Hl.
  rewrite !NumberFacts.sub_ofZ; [reflexivity | lia | reflexivity | | ];
    apply Z.le_lt_trans with 8640000000000000; (exact Hl || exact He || reflexivity).
Qed.

Lemma earliest_Permutation (l l' : list Z) :
  Permutation l l' -> l <> [] -> earliest l = earliest l'.
Proof.
  intros Hp Hl.
  assert (Hl' : l' <> []).
  { intros ->. apply Permutation_sym, Permutation_nil in Hp. contradiction. }
  destruct (earliest_least l Hl) as [Hin Hall].
  destruct (earliest_least l' Hl') as [Hin' Hall'].
  apply (least_unique l'); auto.
  - now apply (Permutation_in _ Hp).
  - exact (Forall_Permutation _ _ _ Hp Hall).
Qed.

Lemma latest_Permutation (l l' : list Z) :
  Permutation l l' -> l <> [] -> latest l = latest l'.
Proof.
  intros Hp Hl.
  assert (Hl' : l' <> []).
  { intros ->. apply Permutation_sym, Permutation_nil in Hp. contradiction. }
  destruct (latest_greatest l Hl) as [Hin Hall].
  destruct (latest_greatest l' Hl') as [Hin' Hall'].
  apply (greatest_unique l'); auto.
  - now apply (Permutation_in _ Hp).
  - exact (Forall_Permutation _ _ _ Hp Hall).
Qed.


(** The average does not depend on the order of the dates. *)
Lemma averageDays_ascending_Permutation (l l' : list Z) :
  Permutation l l' -> averageDays (ascending l) = averageDays (ascending l').
Proof.
  intros Hp. destruct l as [|x l].
  - apply Permutation_nil in Hp. now subst.
  - assert (Hl' : l' <> []).
    { intros ->. apply Permutation_sym, Permutation_nil in Hp. discriminate. }
    unfold averageDays.
    rewrite !ascending_last, !ascending_hd, !ascending_length
      by (exact Hl' || discriminate).
    rewrite (earliest_Permutation _ _ Hp), (latest_Permutation _ _ Hp) by discriminate.
    now rewrite (Permutation_length Hp).
Qed.

(** *** The sort of the source *)

Lemma insertAscending_bounded (d : Z) (l : list Z) :
  Z.abs d <= 8640000000000000 ->
  Forall (fun t => Z.abs t <= 8640000000000000) l ->
  Forall (fun t => Z.abs t <= 8640000000000000) (insertAscending d l).
Proof.
  intros Hd Hl. apply Forall_forall. intros x Hx.
  apply insertAscending_In in Hx as [->|Hx]; [exact Hd|].
  rewrite Forall_forall in Hl. now apply Hl.
Qed.

(** With the comparator of the source, a date is inserted where the order
    of the time values puts it. *)
Lemma insertDate_insertAscending (d : Z) (l : list Z) :
  Z.abs d <= 8640000000000000 ->
  Forall (fun t => Z.abs t <= 8640000000000000) l ->
  insertDate d l = insertAscending d l.
Proof.
  intros Hd. induction l as [|x l IH]; intros Hl; [reflexivity|].
  cbn [insertDate insertAscending].
  inversion Hl as [|? ? Hx Hl']; subst.
  unfold compareDates.
  rewrite (proj1 (NumberFacts.comparator_sign d x Hd Hx)), IH by exact Hl'.
  reflexivity.
Qed.

Lemma sortFrom_ascending (l acc : list Z) :
  Forall (fun t => Z.abs t <= 8640000000000000) l ->
  Forall (fun t => Z.abs t <= 8640000000000000) acc ->
  fold_left (fun sorted d => insertDate d sorted) l acc
  = fold_left (fun sorted d => insertAscending d sorted) l acc.
Proof.
  revert acc. induction l as [|d l IH]; intros acc Hl Hacc; simpl; [reflexivity|].
  inversion Hl as [|? ? Hd Hl']; subst.
  rewrite insertDate_insertAscending by assumption.
  apply IH; [exact Hl' | now apply insertAscending_bounded].
Qed.

(** The sort of the source puts time values in ascending order. *)
Lemma sortDates_ascending (l : list Z) :
  Forall (fun t => Z.abs t <= 8640000000000000) l -> sortDates l = ascending l.
Proof. intros Hl. apply sortFrom_ascending; [exact Hl | constructor]. Qed.

Lemma averageDays_sortDates (dates : list Z) :
  dates <> [] ->
  Forall (fun t => Z.abs t <= 8640000000000000) dates ->
  Z.of_nat (List.length dates) < 2 ^ 53 ->
  averageDays (sortDates dates) = averageInterval dates.
Proof.
  intros Hd Hb Hlen. rewrite sortDates_ascending by exact Hb.
  now apply averageDays_ascending.
Qed.

(** The average does not depend on the order of the dates. *)
Lemma averageDays_Permutation (l l' : list Z) :
  Forall (fun t => Z.abs t <= 8640000000000000) l ->
  Permutation l l' -> averageDays (sortDates l) = averageDays (sortDates l').
Proof.
  intros Hb Hp.
  rewrite !sortDates_ascending by (exact Hb || exact (Forall_Permutation _ _ _ Hp Hb)).
  now apply averageDays_ascending_Permutation.
Qed.

End SortFacts.

(** ** The temporal analysis *)

Module TemporalFacts.
Import JsNumber Temporal Spec NumberFacts SortFacts Samples.





Section WithDate.
Variable parseDate : string -> option Z.
Variable formatDate : Z -> string.

Lemma parsableDates_from (items : list Item.t) (acc : list Z) :
  fold_left
    (fun dates item =>
       match itemDate parseDate item with
       | Some d => dates ++ [d]
       | None => dates
       end)
    items acc
  = acc ++ parsable parseDate items.
Proof.
  revert acc. induction items as [|item items IH]; intros acc; simpl.
  - now rewrite app_nil_r.
  - rewrite IH. destruct (itemDate parseDate item); [|reflexivity].
    now rewrite <- app_assoc.
Qed.

Lemma parsableDates_parsable (items : list Item.t) :
  parsableDates parseDate items = parsable parseDate items.
Proof. apply (parsableDates_from items []). Qed.

Lemma parsable_length (items : list Item.t) :
  List.length (parsable parseDate items) <= List.length items.
Proof.
  induction items as [|item items IH]; simpl; [lia|].
  rewrite length_app. destruct (itemDate parseDate item); simpl; lia.
Qed.


Lemma itemDate_bounded (item : Item.t) (t : Z) :
  itemDate parseDate item = Some t -> (Z.abs t <= 8640000000000000)%Z.
Proof.
  unfold itemDate, newDate, timeClip.
  destruct (Item.pubDate item) as [s|]; [|discriminate].
  destruct (truthy (Some s)); [|discriminate].
  destruct (parseDate s) as [u|]; [|discriminate].
  destruct (Z.abs u <=? 8640000000000000)%Z eqn:E; [|discriminate].
  intros [= <-]. now apply Z.leb_le.
Qed.

(** Every parsable timestamp is a time value. *)
Lemma parsable_bounded (items : list Item.t) :
  Forall (fun t => (Z.abs t <= 8640000000000000)%Z) (parsable parseDate items).
Proof.
  induction items as [|item items IH]; simpl; [constructor|].
  destruct (itemDate parseDate item) as [t|] eqn:E; [|exact IH].
  constructor; [exact (itemDate_bounded item t E) | exact IH].
Qed.

(** The post frequency in terms of the parsable timestamps. *)
Lemma postFrequency_sorted (items : list Item.t) :
  postFrequency parseDate items
  = if Nat.ltb 1 (List.length (parsable parseDate items))
    then Some (frequencyLabel (averageDays (sortDates (parsable parseDate items))))
    else None.
Proof.
  unfold postFrequency. rewrite parsableDates_parsable.
  pose proof (parsable_length items) as Hlen.
  destruct (Nat.ltb 1 (List.length (parsable parseDate items))) eqn:E.
  - apply Nat.ltb_lt in E.
    now replace (Nat.ltb 1 (List.length items)) with true
      by (symmetry; apply Nat.ltb_lt; lia).
  - now destruct (Nat.ltb 1 (List.length items)).
Qed.

(** The average of the source is the average of the specification. *)
Lemma averageDays_parsable (items : list Item.t) :
  parsable parseDate items <> [] ->
  (Z.of_nat (List.length items) < 2 ^ 53)%Z ->
  averageDays (sortDates (parsable parseDate items))
  = averageInterval (parsable parseDate items).
Proof.
  intros Hne Hlen. apply averageDays_sortDates; [exact Hne | apply parsable_bounded|].
  pose proof (parsable_length items). lia.
Qed.




(** *** The last update *)

Lemma latestDate_from (items : list Item.t) (acc : option Z) :
  let r := fold_left (later parseDate) items acc in
  let dates := parsable parseDate items in
  match acc with
  | Some a =>
      exists m, r = Some m /\ (m = a \/ In m dates) /\ (a <= m)%Z
                /\ Forall (fun x => (x <= m)%Z) dates
  | None =>
      (dates = [] /\ r = None)
      \/ exists m, r = Some m /\ In m dates /\ Forall (fun x => (x <= m)%Z) dates
  end.
Proof.
  revert acc. induction items as [|item items IH]; intros acc; simpl.
  - destruct acc as [a|].
    + exists a. repeat split; [now left | lia | constructor].
    + left. now split.
  - destruct (itemDate parseDate item) as [d|] eqn:Ed; simpl.
    + destruct acc as [a|].
      * destruct (a <? d)%Z eqn:E.
        -- replace (later parseDate (Some a) item) with (Some d)
             by (unfold later; now rewrite Ed, E).
           apply Z.ltb_lt in E.
           destruct (IH (Some d)) as [m [Hr [Hin [Hle Hall]]]].
           exists m. split; [exact Hr|].
           split; [right; destruct Hin; [now left | now right]|].
           split; [lia|]. constructor; [exact Hle | exact Hall].
        -- replace (later parseDate (Some a) item) with (Some a)
             by (unfold later; now rewrite Ed, E).
           apply Z.ltb_ge in E.
           destruct (IH (Some a)) as [m [Hr [Hin [Hle Hall]]]].
           exists m. split; [exact Hr|].
           split; [destruct Hin; [now left | right; now right]|].
           split; [exact Hle|]. constructor; [lia | exact Hall].
      * replace (later parseDate None item) with (Some d)
          by (unfold later; now rewrite Ed).
        right. destruct (IH (Some d)) as [m [Hr [Hin [Hle Hall]]]].
        exists m. split; [exact Hr|].
        split; [destruct Hin; [now left | now right]|].
        constructor; [exact Hle | exact Hall].
    + replace (later parseDate acc item) with acc
        by (unfold later; now rewrite Ed).
      apply IH.
Qed.

(** The latest date is the greatest parsable timestamp. *)
Lemma latestDate_greatest (items : list Item.t) :
  (parsable parseDate items = [] /\ latestDate parseDate items = None)
  \/ exists m, latestDate parseDate items = Some m
               /\ In m (parsable parseDate items)
               /\ Forall (fun x => (x <= m)%Z) (parsable parseDate items).
Proof. exact (latestDate_from items None). Qed.

Lemma parsable_Permutation (items items' : list Item.t) :
  Permutation items items' ->
  Permutation (parsable parseDate items) (parsable parseDate items').
Proof. intros Hp. unfold parsable. now apply Permutation_flat_map. Qed.

Lemma latestDate_Permutation (items items' : list Item.t) :
  Permutation items items' ->
  latestDate parseDate items = latestDate parseDate items'.
Proof.
  intros Hp. apply parsable_Permutation in Hp.
  destruct (latestDate_greatest items) as [[He Hr]|[m [Hr [Hin Hall]]]];
    destruct (latestDate_greatest items') as [[He' Hr']|[m' [Hr' [Hin' Hall']]]];
    rewrite Hr, Hr'.
  - reflexivity.
  - rewrite He in Hp. apply Permutation_nil in Hp. rewrite Hp in Hin'. destruct Hin'.
  - rewrite He' in Hp. apply Permutation_sym, Permutation_nil in Hp.
    rewrite Hp in Hin. destruct Hin.
  - f_equal. apply (greatest_unique (parsable parseDate items')); auto.
    + now apply (Permutation_in _ Hp).
    + exact (Forall_Permutation _ _ _ Hp Hall).
Qed.

Lemma postFrequency_Permutation (items items' : list Item.t) :
  Permutation items items' ->
  postFrequency parseDate items = postFrequency parseDate items'.
Proof.
  intros Hp. rewrite !postFrequency_sorted.
  apply parsable_Permutation in Hp.
  rewrite (Permutation_length Hp),
    (averageDays_Permutation _ _ (parsable_bounded items) Hp).
  reflexivity.
Qed.

(** C5, amended: under every permutation of the items, the post frequency
    and the latest parsed date are unchanged, and so is the last update as
    soon as one timestamp parses; when none parses, the last update is the
    raw publication date of the first item (null when it has none), which
    follows the order of the items. *)
Theorem temporal_order (items items' : list Item.t) :
  Permutation items items' ->
  postFrequency parseDate items = postFrequency parseDate items'
  /\ latestDate parseDate items = latestDate parseDate items'
  /\ (parsable parseDate items <> [] ->
      lastUpdate parseDate formatDate items = lastUpdate parseDate formatDate items')
  /\ (parsable parseDate items = [] ->
      lastUpdate parseDate formatDate items
      = match items with
        | [] => None
        | firstItem :: _ =>
            if truthy (Item.pubDate firstItem) then Item.pubDate firstItem else None
        end).
Proof.
  intros Hp. split; [now apply postFrequency_Permutation|].
  split; [now apply latestDate_Permutation|]. split.
  - intros Hne. unfold lastUpdate.
    rewrite <- (latestDate_Permutation _ _ Hp).
    destruct (latestDate_greatest items) as [[He _]|[m [Hr _]]]; [contradiction|].
    rewrite Hr. destruct items as [|i1 r1]; [now elim Hne|].
    destruct items' as [|i2 r2]; [|reflexivity].
    apply Permutation_sym, Permutation_nil in Hp. discriminate.
  - intros He. unfold lastUpdate.
    destruct (latestDate_greatest items) as [[_ Hr]|[m [_ [Hin _]]]].
    + now rewrite Hr.
    + rewrite He in Hin. destruct Hin.
Qed.

End WithDate.




(** C5 as stated fails: no date of these two items parses, and swapping
    them changes the last update from the raw date of one to the raw date
    of the other. *)
Lemma last_update_follows_first_item :
  Permutation undated (rev undated)
  /\ itemDate Examples.isoDate (dated "soon") = None
  /\ itemDate Examples.isoDate (dated "later") = None
  /\ lastUpdate Examples.isoDate Examples.plainDate undated = Some "soon"
  /\ lastUpdate Examples.isoDate Examples.plainDate (rev undated) = Some "later"
  /\ lastUpdate Examples.isoDate Examples.plainDate undated
     <> lastUpdate Examples.isoDate Examples.plainDate (rev undated).
Proof.
  split; [apply Permutation_rev|].
  repeat (split; [reflexivity|]). discriminate.
Qed.

(** Five daily items and the same items in reverse order. *)
Lemma temporal_order_witness :
  Permutation fiveDaily (rev fiveDaily)
  /\ postFrequency Examples.isoDate fiveDaily
     = postFrequency Examples.isoDate (rev fiveDaily)
  /\ latestDate Examples.isoDate fiveDaily = latestDate Examples.isoDate (rev fiveDaily)
  /\ (parsable Examples.isoDate fiveDaily <> [] ->
      lastUpdate Examples.isoDate Examples.plainDate fiveDaily
      = lastUpdate Examples.isoDate Examples.plainDate (rev fiveDaily))
  /\ (parsable Examples.isoDate fiveDaily = [] ->
      lastUpdate Examples.isoDate Examples.plainDate fiveDaily
      = match fiveDaily with
        | [] => None
        | firstItem :: _ =>
            if truthy (Item.pubDate firstItem) then Item.pubDate firstItem else None
        end).
Proof.
  split; [apply Permutation_rev|].
  apply (temporal_order Examples.isoDate Examples.plainDate fiveDaily (rev fiveDaily)).
  apply Permutation_rev.
Defined.

End TemporalFacts.

(** ** The rules of the validator *)

Module RulesFacts.
Import JsString Regex Validator Rules.

(** Whether a list of violations is empty. *)
Lemma eqb_length_nil (errs : list string) :
  Nat.eqb (List.length errs) 0 = true <-> errs = [].
Proof. destruct errs; simpl; split; congruence. Qed.

Lemma push_if_nil (c : bool) (errs : list string) (e : string) :
  (if c then push errs e else errs) = [] <-> c = false /\ errs = [].
Proof.
  destruct c; split.
  - intros H. unfold push in H. now destruct errs.
  - intros [H _]. discriminate.
  - intros H. now split.
  - intros [_ H]. exact H.
Qed.

Lemma push_nil (errs : list string) (e : string) : push errs e = [] <-> False.
Proof. split; [unfold push; now destruct errs | tauto]. Qed.

(** *** The loop over the item elements *)

Lemma checkItems_from (items : list Match) (n : nat) (errs : list string) :
  snd (fold_left
         (fun (st : nat * list string) (itemMatch : Match) =>
            let itemCount := S (fst st) in
            let itemContent := group1 itemMatch in
            let hasItemTitle := exec true (openTag "title") itemContent in
            let hasItemDescription := exec true (openTag "description") itemContent in
            if isNull hasItemTitle && isNull hasItemDescription then
              (itemCount,
               push (snd st)
                 ("RSS item #" ++ ofNat itemCount
                    ++ " missing required <title> or <description> element")%string)
            else (itemCount, snd st))
         items (n, errs))
  = errs ++ map itemMessage (failing n items).
Proof.
  revert n errs. induction items as [|m items IH]; intros n errs.
  - simpl. now rewrite app_nil_r.
  - cbn [fold_left failing fst snd]. unfold itemOk, present.
    destruct (isNull (exec true (openTag "title") (group1 m)));
      destruct (isNull (exec true (openTag "description") (group1 m)));
      cbn [andb orb negb]; rewrite IH; try reflexivity.
    unfold push. rewrite <- app_assoc. reflexivity.
Qed.

Lemma checkItems_messages (xmlContent : string) (errs : list string) :
  checkItems xmlContent errs
  = errs ++ map itemMessage (failing 0 (itemElements xmlContent)).
Proof. apply checkItems_from. Qed.

Lemma failing_nil (n : nat) (items : list Match) :
  failing n items = [] <-> forallb itemOk items = true.
Proof.
  revert n. induction items as [|m items IH]; intros n; simpl; [tauto|].
  destruct (itemOk m); simpl; [apply IH | split; discriminate].
Qed.

Lemma failing_numbers (n : nat) (items : list Match) (k : nat) :
  In k (failing n items) <->
  exists m, nth_error items (k - S n) = Some m /\ itemOk m = false /\ n < k.
Proof.
  revert n. induction items as [|m items IH]; intros n; simpl.
  - split; [tauto|]. intros [m [H _]]. now destruct (k - S n).
  - destruct (itemOk m) eqn:E.
    + rewrite IH. split.
      * intros [m' [Hn [Hok Hlt]]]. exists m'.
        replace (k - S n) with (S (k - S (S n))) by lia. simpl. repeat split; auto; lia.
      * intros [m' [Hn [Hok Hlt]]].
        destruct (k - S n) as [|j] eqn:Ej.
        -- simpl in Hn. congruence.
        -- exists m'. simpl in Hn. replace (k - S (S n)) with j by lia.
           repeat split; auto; lia.
    + simpl. rewrite IH. split.
      * intros [<- | [m' [Hn [Hok Hlt]]]].
        -- exists m. rewrite Nat.sub_diag. repeat split; auto.
        -- exists m'. replace (k - S n) with (S (k - S (S n))) by lia.
           simpl. repeat split; auto; lia.
      * intros [m' [Hn [Hok Hlt]]].
        destruct (k - S n) as [|j] eqn:Ej.
        -- left. lia.
        -- right. exists m'. simpl in Hn. replace (k - S (S n)) with j by lia.
           repeat split; auto; lia.
Qed.

(** X1: the loop over the item elements appends one violation for each
    element that has neither a title tag nor a description tag, numbered by
    the position of the element among the item elements, in that order. *)
Theorem checkItems_numbered (xmlContent : string) (errs : list string) :
  checkItems xmlContent errs
  = errs ++ map itemMessage (failing 0 (itemElements xmlContent))
  /\ (forall k,
        In k (failing 0 (itemElements xmlContent)) <->
        exists m, nth_error (itemElements xmlContent) (k - 1) = Some m
                  /\ itemOk m = false /\ 0 < k)
  /\ Sorted.StronglySorted lt (failing 0 (itemElements xmlContent)).
Proof.
  split; [apply checkItems_messages|]. split; [intros k; apply failing_numbers|].
  generalize 0 (itemElements xmlContent). intros n items. revert n.
  induction items as [|m items IH]; intros n; simpl; [constructor|].
  destruct (itemOk m); [apply IH|].
  constructor; [apply IH|]. apply Forall_forall. intros k Hk.
  apply failing_numbers in Hk as [_ [_ [_ H]]]. exact H.
Qed.

(** *** The rules *)

Lemma checkItems_nil (xmlContent : string) (errs : list string) :
  checkItems xmlContent errs = [] <->
  errs = [] /\ forallb itemOk (itemElements xmlContent) = true.
Proof.
  rewrite checkItems_messages, <- (failing_nil 0). split.
  - intros H. apply app_eq_nil in H as [H1 H2]. split; [exact H1|].
    now apply map_eq_nil in H2.
  - intros [H1 H2]. now rewrite H1, H2.
Qed.

Lemma checkChannel_nil (xmlContent channelContent : string) (errs : list string) :
  checkChannel xmlContent channelContent errs = [] <->
  errs = []
  /\ titleOk channelContent = true
  /\ present (exec true (openTag "link") channelContent) = true
  /\ present (exec true (openTag "item") xmlContent) = true
  /\ forallb itemOk (itemElements xmlContent) = true.
Proof.
  unfold checkChannel, titleOk, present.
  set (t := exec true (element "title") channelContent).
  set (l := exec true (openTag "link") channelContent).
  set (i := exec true (openTag "item") xmlContent).
  assert (Htrim : forall s, String.eqb s EmptyString || String.eqb (trim s) EmptyString
                            = String.eqb (trim s) EmptyString).
  { intros s. destruct s; reflexivity. }
  destruct (isNull i) eqn:Ei; cbn [negb].
  - rewrite push_nil. split; [tauto|]. intros [_ [_ [_ [H _]]]]. discriminate.
  - rewrite checkItems_nil, push_if_nil.
    destruct t as [m|].
    + rewrite Htrim, push_if_nil. destruct (isNull l); simpl;
        destruct (String.eqb (trim (group1 m)) EmptyString); simpl; intuition congruence.
    + rewrite push_nil. intuition congruence.
Qed.

Lemma checkRss_nil (xmlContent : string) :
  checkRss xmlContent [] = [] <-> rssOk xmlContent = true.
Proof.
  unfold checkRss, rssOk, versionOk, channelOk.
  fold (hasChannel xmlContent).
  destruct (exec true (element "channel") xmlContent) as [c|].
  - rewrite checkChannel_nil, push_if_nil.
    destruct (exec true (openTag "rss") xmlContent) as [m|].
    + rewrite push_if_nil.
      destruct (includes (text m) "version="), (hasChannel xmlContent); simpl;
        rewrite ?andb_true_iff; intuition congruence.
    + destruct (hasChannel xmlContent); simpl; rewrite ?andb_true_iff;
        intuition congruence.
  - rewrite andb_false_r. destruct (hasChannel xmlContent).
    + rewrite push_nil. split; [tauto | discriminate].
    + cbn [negb]. rewrite push_nil. split; [tauto | discriminate].
Qed.

Lemma checkAtom_nil (xmlContent : string) :
  checkAtom xmlContent [] = [] <->
  present (exec true (openTag "title") xmlContent) = true
  /\ present (exec true (openTag "id") xmlContent) = true
  /\ present (exec true (openTag "updated") xmlContent) = true
  /\ present (exec true (openTag "entry") xmlContent) = true.
Proof.
  unfold checkAtom, present. rewrite !push_if_nil.
  destruct (isNull (exec true (openTag "title") xmlContent)),
           (isNull (exec true (openTag "id") xmlContent)),
           (isNull (exec true (openTag "updated") xmlContent)),
           (isNull (exec true (openTag "entry") xmlContent)); simpl;
    intuition congruence.
Qed.

Lemma filesize_count (l : list Match) (n : nat) :
  fold_left
    (fun (n : nat) (m : Match) => if includes (text m) "filesize=" then S n else n)
    l n
  = n + List.length (filter (fun m => includes (text m) "filesize=") l).
Proof.
  revert n. induction l as [|m l IH]; intros n; simpl; [lia|].
  rewrite IH. destruct (includes (text m) "filesize="); simpl; lia.
Qed.

Lemma checkFilesize_nil (xmlContent : string) (errs : list string) :
  checkFilesize xmlContent errs = [] <-> errs = [] /\ filesizeFree xmlContent = true.
Proof.
  unfold checkFilesize, filesizeFree. rewrite filesize_count, push_if_nil. simpl.
  set (l := matchAll true (openTag "media:content") xmlContent).
  assert (H : Nat.ltb 0 (List.length (filter (fun m => includes (text m) "filesize=") l)) = false
              <-> forallb (fun m => negb (includes (text m) "filesize=")) l = true).
  { induction l as [|m l IH]; simpl; [tauto|].
    destruct (includes (text m) "filesize="); simpl; [split; discriminate | exact IH]. }
  tauto.
Qed.

(** The validity flag, rule by rule. *)
Lemma isValid_accepts (xmlContent url : string) :
  isValid (validateFeedXML xmlContent url) = accepts xmlContent.
Proof.
  unfold validateFeedXML, tryBlock, accepts, rssFamily, atomOk.
  destruct (looksLikeXml xmlContent); [|reflexivity]. cbn [negb andb complete isValid].
  apply eq_true_iff_eq. rewrite eqb_length_nil, checkFilesize_nil, andb_true_iff.
  destruct (includes xmlContent "<rss" || includes xmlContent "<channel>").
  - rewrite checkRss_nil. tauto.
  - destruct (includes xmlContent "<feed" && includes xmlContent atomNamespace) eqn:E.
    + rewrite checkAtom_nil. cbn [andb]. rewrite !andb_true_iff. tauto.
    + rewrite push_nil. cbn [andb]. split; [tauto | intros [H _]; discriminate].
Qed.

(** X2: a document is valid exactly when it passes the gate, satisfies the
    rules of its family (the RSS rules when the text holds [<rss] or
    [<channel>], the Atom rules otherwise) and has no [media:content] tag
    with a [filesize] attribute: no rule makes up for another. *)
Theorem validateFeedXML_accepts (xmlContent url : string) :
  isValid (validateFeedXML xmlContent url) = accepts xmlContent.
Proof. exact (isValid_accepts xmlContent url). Qed.

(** X3: a [media:content] tag with a [filesize] attribute makes the document
    invalid, whatever else it holds. *)
Theorem filesize_invalidates (xmlContent url : string) (m : Match) :
  In m (matchAll true (openTag "media:content") xmlContent) ->
  includes (text m) "filesize=" = true ->
  isValid (validateFeedXML xmlContent url) = false.
Proof.
  intros Hin Hf. rewrite isValid_accepts. unfold accepts.
  replace (filesizeFree xmlContent) with false; [now rewrite andb_false_r|].
  symmetry. apply not_true_is_false. unfold filesizeFree. rewrite forallb_forall.
  intros H. specialize (H m Hin). rewrite Hf in H. discriminate.
Qed.


(** *** Leading white space *)

Lemma whiteSpace_not_bracket (a : ascii) :
  isWhiteSpace a = true ->
  sameChar true "<" a = false /\ Ascii.eqb "<" a = false /\ Ascii.eqb "x" a = false.
Proof.
  intros H. destruct a as [[] [] [] [] [] [] [] []]; vm_compute in H;
    try discriminate H; repeat split.
Qed.

Lemma includes_skip (c a : ascii) (p s : string) :
  Ascii.eqb c a = false ->
  includes (String a s) (String c p) = includes s (String c p).
Proof. intros H. cbn [includes startsWith]. now rewrite H. Qed.

Lemma matchHere_skip (l : string) (r : regex) (a : ascii) (s : string) :
  sameChar true "<" a = false ->
  matchHere true (Cat (Lit (String "<" l)) r) (String a s) = None.
Proof. intros H. unfold matchHere. cbn [run literal]. now rewrite H. Qed.

Lemma exec_skip (l : string) (r : regex) (a : ascii) (s : string) :
  sameChar true "<" a = false ->
  exec true (Cat (Lit (String "<" l)) r) (String a s)
  = exec true (Cat (Lit (String "<" l)) r) s.
Proof. intros H. cbn [exec]. now rewrite matchHere_skip. Qed.

Lemma matchAll_skip (l : string) (r : regex) (a : ascii) (s : string) :
  sameChar true "<" a = false ->
  matchAll true (Cat (Lit (String "<" l)) r) (String a s)
  = matchAll true (Cat (Lit (String "<" l)) r) s.
Proof. intros H. unfold matchAll. cbn [matchAllFrom]. now rewrite matchHere_skip. Qed.

Lemma tryBlock_skip (a : ascii) (s : string) (errs : list string) :
  isWhiteSpace a = true -> tryBlock (String a s) errs = tryBlock s errs.
Proof.
  intros Hw. destruct (whiteSpace_not_bracket a Hw) as [Hs [Hb Hx]].
  unfold tryBlock, looksLikeXml, trim. cbn [trimStart]. rewrite Hw.
  unfold checkRss, checkAtom, checkFilesize, checkChannel, checkItems,
    atomNamespace, openTag, element.
  cbn [seq]. cbn [String.append dq].
  rewrite !(includes_skip _ a) by assumption.
  rewrite !(exec_skip _ _ a) by assumption.
  rewrite !(matchAll_skip _ _ a) by assumption.
  reflexivity.
Qed.

(** X4: white space before the document never changes the outcome of the
    validation. *)
Theorem validateFeedXML_trimStart (xmlContent url : string) :
  validateFeedXML xmlContent url = validateFeedXML (trimStart xmlContent) url.
Proof.
  unfold validateFeedXML. induction xmlContent as [|a s IH]; [reflexivity|].
  cbn [trimStart]. destruct (isWhiteSpace a) eqn:E; [|reflexivity].
  now rewrite tryBlock_skip.
Qed.

(** *** The feed type *)

(** X5: a document that holds [<rss] is labelled [RSS] followed by a version
    that is not empty; a valid document outside the RSS family is
    labelled [Atom]. *)
Theorem feedType_consistent (xmlContent url : string) :
  (includes xmlContent "<rss" = true ->
   exists version,
     version <> EmptyString
     /\ Analysis.feedType xmlContent = ("RSS " ++ version)%string)
  /\ (isValid (validateFeedXML xmlContent url) = true ->
      rssFamily xmlContent = false ->
      Analysis.feedType xmlContent = "Atom").
Proof.
  split.
  - intros H. unfold Analysis.feedType. rewrite H.
    destruct (exec true Analysis.rssVersion xmlContent) as [m|];
      [|exists "2.0"; split; [discriminate | reflexivity]].
    destruct (group1 m) as [|c v] eqn:E; cbn [truthy];
      [exists "2.0"; split; [discriminate | reflexivity]|].
    destruct (String.eqb (String c v) "2.0") eqn:E2.
    + exists "2.0". split; [discriminate | reflexivity].
    + exists (String c v). split; [discriminate | reflexivity].
  - rewrite isValid_accepts. unfold accepts, atomOk, rssFamily.
    intros Hv Hf. rewrite Hf in Hv. unfold Analysis.feedType.
    apply orb_false_iff in Hf as [-> _].
    rewrite !andb_true_iff in Hv.
    destruct Hv as [[_ [[[[[H1 H2] _] _] _] _]] _]. now rewrite H1, H2.
Qed.

(** *** The earlier validator *)

Lemma legacy_accepts (xmlContent url : string) :
  isValid (Legacy.validateFeedXML xmlContent url)
  = looksLikeXml xmlContent
    && (if rssFamily xmlContent then rssOk xmlContent else atomOk xmlContent).
Proof.
  unfold Legacy.validateFeedXML, Legacy.tryBlock, rssFamily, atomOk.
  destruct (looksLikeXml xmlContent); [|reflexivity]. cbn [negb andb complete isValid].
  apply eq_true_iff_eq. rewrite eqb_length_nil.
  destruct (includes xmlContent "<rss" || includes xmlContent "<channel>").
  - apply checkRss_nil.
  - destruct (includes xmlContent "<feed" && includes xmlContent atomNamespace) eqn:E.
    + rewrite checkAtom_nil. cbn [andb]. rewrite !andb_true_iff. tauto.
    + rewrite push_nil. cbn [andb]. split; [tauto | discriminate].
Qed.

Lemma checkFilesize_free (xmlContent : string) (errs : list string) :
  filesizeFree xmlContent = true -> checkFilesize xmlContent errs = errs.
Proof.
  intros H. unfold checkFilesize. rewrite filesize_count. simpl.
  replace (List.length _) with 0; [reflexivity|].
  unfold filesizeFree in H.
  induction (matchAll true (openTag "media:content") xmlContent) as [|m l IH];
    [reflexivity|].
  simpl in *. apply andb_true_iff in H as [H1 H2].
  destruct (includes (text m) "filesize="); [discriminate | now apply IH].
Qed.

(** X6: the validator differs from the earlier one by the rule on
    [media:content] alone: a document is valid exactly when the earlier
    validator accepts it and no [media:content] tag has a [filesize]
    attribute, and without such a tag the two outcomes are equal. *)
Theorem validateFeedXML_extends_legacy (xmlContent url : string) :
  isValid (validateFeedXML xmlContent url)
  = isValid (Legacy.validateFeedXML xmlContent url) && filesizeFree xmlContent
  /\ (filesizeFree xmlContent = true ->
      validateFeedXML xmlContent url = Legacy.validateFeedXML xmlContent url).
Proof.
  split.
  - rewrite isValid_accepts, legacy_accepts. reflexivity.
  - intros H. unfold validateFeedXML, Legacy.validateFeedXML, tryBlock,
      Legacy.tryBlock.
    destruct (negb (looksLikeXml xmlContent)); [reflexivity|].
    now rewrite checkFilesize_free.
Qed.

(** A document whose only fault is the [filesize] attribute. *)
Lemma filesize_invalidates_witness :
  In (mkMatch "<media:content url='http://example.org/a.jpg' filesize='1'/>" [])
     (matchAll true (openTag "media:content") Samples.filesizeDocument)
  /\ includes "<media:content url='http://example.org/a.jpg' filesize='1'/>" "filesize=" = true
  /\ isValid (validateFeedXML Samples.filesizeDocument Samples.url) = false.
Proof.
  assert (H1 : In (mkMatch "<media:content url='http://example.org/a.jpg' filesize='1'/>" [])
                  (matchAll true (openTag "media:content") Samples.filesizeDocument))
    by (vm_compute; left; reflexivity).
  split; [exact H1|]. split; [reflexivity|].
  exact (filesize_invalidates Samples.filesizeDocument Samples.url _ H1 eq_refl).
Defined.

End RulesFacts.

(** ** The analysis *)

Module AnalysisFacts.
Import JsString Regex Analysis Keys.

(** *** Field discovery *)

Lemma arrayIncludes_In (l : list string) (x : string) :
  arrayIncludes l x = true <-> In x l.
Proof.
  unfold arrayIncludes. rewrite existsb_exists. split.
  - intros [y [Hy E]]. apply String.eqb_eq in E. now subst.
  - intros H. exists x. split; [exact H | apply String.eqb_refl].
Qed.

Lemma add_NoDup (set : list string) (x : string) :
  NoDup set -> NoDup (add set x).
Proof.
  intros H. unfold add. destruct (arrayIncludes set x) eqn:E; [exact H|].
  apply NoDup_app; [exact H | repeat constructor; simpl; tauto |].
  intros y Hy [<-|[]]. apply arrayIncludes_In in Hy. congruence.
Qed.

Lemma addIf_NoDup (b : bool) (x : string) (set : list string) :
  NoDup set -> NoDup (addIf b x set).
Proof. intros H. destruct b; [now apply add_NoDup | exact H]. Qed.

Lemma insertString_Permutation (x : string) (l : list string) :
  Permutation (insertString x l) (x :: l).
Proof.
  induction l as [|y l IH]; simpl; [reflexivity|].
  destruct (String.leb x y); [reflexivity|]. rewrite IH. apply perm_swap.
Qed.

Lemma sortStrings_Permutation (l : list string) : Permutation (sortStrings l) l.
Proof.
  induction l as [|x l IH]; simpl; [reflexivity|].
  rewrite insertString_Permutation. now constructor.
Qed.

Lemma insertString_Sorted (x : string) (l : list string) :
  Sorted (fun a b => String.leb a b = true) l ->
  Sorted (fun a b => String.leb a b = true) (insertString x l).
Proof.
  induction l as [|y l IH]; intros Hs; simpl.
  - repeat constructor.
  - destruct (String.leb x y) eqn:E.
    + constructor; [exact Hs | constructor; exact E].
    + inversion Hs as [|? ? Hl Hy]; subst. constructor; [now apply IH|].
      destruct l as [|z l]; simpl.
      * constructor. destruct (String.leb_total x y); congruence.
      * destruct (String.leb x z).
        -- constructor. destruct (String.leb_total x y); congruence.
        -- inversion Hy; subst. now constructor.
Qed.

Lemma sortStrings_Sorted (l : list string) :
  Sorted (fun a b => String.leb a b = true) (sortStrings l).
Proof.
  induction l as [|x l IH]; simpl; [constructor | now apply insertString_Sorted].
Qed.

(** X7: the available fields are in ascending order and hold no name
    twice, also when the feed and its first item both give a name. *)
Theorem availableFields_sorted_set (feed : Feed.t) :
  Sorted (fun a b => String.leb a b = true) (availableFields feed)
  /\ NoDup (availableFields feed).
Proof.
  unfold availableFields. split; [apply sortStrings_Sorted|].
  eapply Permutation_NoDup; [apply Permutation_sym, sortStrings_Permutation|].
  destruct (Feed.items feed) as [|firstItem rest];
    repeat apply addIf_NoDup; constructor.
Qed.

(** *** The featured image flag *)

(** One item with an extension or an image enclosure is enough to raise
    the flag. *)
Lemma hasFeaturedImage_of_item (items : list Item.t) (item : Item.t) :
  In item items ->
  truthyValue (Item.mediaContent item) = true
  \/ truthyValue (Item.mediaThumbnail item) = true
  \/ imageEnclosure item = true ->
  hasFeaturedImage items = true.
Proof.
  induction items as [|i items IH]; [intros []|].
  intros [->|Hin] Hs; cbn [hasFeaturedImage].
  - destruct (truthyValue (Item.mediaContent item)); [reflexivity|].
    destruct (truthyValue (Item.mediaThumbnail item)); [reflexivity|].
    destruct (imageEnclosure item); [reflexivity|].
    destruct Hs as [H|[H|H]]; discriminate.
  - rewrite (IH Hin Hs).
    destruct (truthyValue (Item.mediaContent i)); [reflexivity|].
    destruct (truthyValue (Item.mediaThumbnail i)); [reflexivity|].
    destruct (imageEnclosure i); [reflexivity|].
    destruct (truthyValue (Item.image i)); [reflexivity|].
    destruct (holdsImg (Item.description i)); [reflexivity|].
    destruct (holdsImg (Item.contentEncoded i)); reflexivity.
Qed.

(** X8: the flag is true exactly when some item carries one of the six
    signals, wherever the item is in the feed. *)
Theorem hasFeaturedImage_exists (items : list Item.t) :
  hasFeaturedImage items = true <->
  exists item,
    In item items
    /\ (truthyValue (Item.mediaContent item) = true
        \/ truthyValue (Item.mediaThumbnail item) = true
        \/ imageEnclosure item = true
        \/ truthyValue (Item.image item) = true
        \/ holdsImg (Item.description item) = true
        \/ holdsImg (Item.contentEncoded item) = true).
Proof.
  induction items as [|item items IH]; simpl.
  - split; [discriminate | intros [_ [[] _]]].
  - destruct (truthyValue (Item.mediaContent item)) eqn:E1;
      [split; [intros _; exists item; auto | reflexivity]|].
    destruct (truthyValue (Item.mediaThumbnail item)) eqn:E2;
      [split; [intros _; exists item; auto | reflexivity]|].
    destruct (imageEnclosure item) eqn:E3;
      [split; [intros _; exists item; auto | reflexivity]|].
    destruct (truthyValue (Item.image item)) eqn:E4;
      [split; [intros _; exists item; auto 6 | reflexivity]|].
    destruct (holdsImg (Item.description item)) eqn:E5;
      [split; [intros _; exists item; auto 7 | reflexivity]|].
    destruct (holdsImg (Item.contentEncoded item)) eqn:E6;
      [split; [intros _; exists item; auto 8 | reflexivity]|].
    rewrite IH. split.
    + intros [i [Hi Hs]]. exists i. auto.
    + intros [i [[<-|Hi] Hs]]; [|exists i; auto].
      rewrite E1, E2, E3, E4, E5, E6 in Hs. intuition discriminate.
Qed.

(** X9: the flag of the handler is the flag of the earlier handler, or the
    presence of a thumbnail extension on some item. *)
Theorem hasFeaturedImage_extends_legacy (items : list Item.t) :
  hasFeaturedImage items
  = Legacy.hasFeaturedImage items
    || existsb (fun item => truthyValue (Item.mediaThumbnail item)) items.
Proof.
  induction items as [|item items IH]; simpl; [reflexivity|].
  rewrite IH.
  destruct (truthyValue (Item.mediaContent item)); [reflexivity|].
  destruct (truthyValue (Item.mediaThumbnail item)); simpl.
  - now rewrite !orb_true_r; repeat match goal with |- context [if ?c then _ else _] => destruct c end.
  - repeat match goal with |- context [if ?c then _ else _] => destruct c end; reflexivity.
Qed.


(** *** Duplicate identifiers *)

Lemma step_itemKey (gm : list (string * nat)) (item : Item.t) :
  match orElse (Item.guid item) (Item.link item) with
  | Some guid => if truthy (Some guid) then countKey guid gm else gm
  | None => gm
  end
  = match itemKey item with
    | Some g => countKey g gm
    | None => gm
    end.
Proof.
  unfold itemKey. destruct (orElse (Item.guid item) (Item.link item)) as [g|];
    [|reflexivity].
  now destruct (truthy (Some g)).
Qed.

Lemma getCount_countKey (g k : string) (gm : list (string * nat)) :
  getCount k (countKey g gm)
  = if String.eqb g k then S (getCount k gm) else getCount k gm.
Proof.
  induction gm as [|[k' n] gm IH]; simpl.
  - destruct (String.eqb g k); reflexivity.
  - destruct (String.eqb k' g) eqn:E; simpl.
    + apply String.eqb_eq in E. subst k'. now destruct (String.eqb g k).
    + destruct (String.eqb k' k) eqn:E'; [|exact IH].
      apply String.eqb_eq in E'. subst k'. now rewrite String.eqb_sym, E.
Qed.

Lemma countKey_keys (g : string) (gm : list (string * nat)) :
  map fst (countKey g gm)
  = if existsb (String.eqb g) (map fst gm) then map fst gm else map fst gm ++ [g].
Proof.
  induction gm as [|[k n] gm IH]; simpl; [reflexivity|].
  rewrite (String.eqb_sym g k). destruct (String.eqb k g); simpl; [reflexivity|].
  rewrite IH. now destruct (existsb (String.eqb g) (map fst gm)).
Qed.

Lemma countKey_NoDup (g : string) (gm : list (string * nat)) :
  NoDup (map fst gm) -> NoDup (map fst (countKey g gm)).
Proof.
  intros H. rewrite countKey_keys.
  exact (add_NoDup (map fst gm) g H).
Qed.

Lemma guidMap_from (items : list Item.t) (gm : list (string * nat)) :
  NoDup (map fst gm) ->
  let final :=
    fold_left
      (fun guidMap item =>
         match orElse (Item.guid item) (Item.link item) with
         | Some guid => if truthy (Some guid) then countKey guid guidMap else guidMap
         | None => guidMap
         end)
      items gm in
  NoDup (map fst final)
  /\ forall g, getCount g final = getCount g gm + occurrences g items.
Proof.
  revert gm. induction items as [|item items IH]; intros gm Hgm; simpl.
  - split; [exact Hgm | intros g; unfold occurrences; simpl; lia].
  - rewrite step_itemKey. unfold occurrences. simpl. unfold hasKey at 1.
    destruct (itemKey item) as [k|].
    + destruct (IH (countKey k gm) (countKey_NoDup k gm Hgm)) as [H1 H2].
      split; [exact H1|]. intros g. rewrite H2, getCount_countKey.
      unfold occurrences. destruct (String.eqb k g); simpl; lia.
    + destruct (IH gm Hgm) as [H1 H2]. split; [exact H1|].
      intros g. rewrite H2. reflexivity.
Qed.

Lemma getCount_In (gm : list (string * nat)) (g : string) (n : nat) :
  NoDup (map fst gm) -> In (g, n) gm -> getCount g gm = n.
Proof.
  induction gm as [|[k m] gm IH]; simpl; [tauto|].
  intros Hnd [H|H].
  - injection H as -> ->. now rewrite String.eqb_refl.
  - inversion Hnd as [|? ? Hk Hnd']; subst.
    destruct (String.eqb k g) eqn:E; [|now apply IH].
    apply String.eqb_eq in E. subst k. elim Hk.
    apply (in_map fst) in H. exact H.
Qed.

Lemma getCount_positive (gm : list (string * nat)) (g : string) :
  0 < getCount g gm -> In (g, getCount g gm) gm.
Proof.
  induction gm as [|[k m] gm IH]; simpl; [lia|].
  destruct (String.eqb k g) eqn:E.
  - apply String.eqb_eq in E. subst k. now left.
  - intros H. right. now apply IH.
Qed.

Lemma filter_keys_NoDup (f : string * nat -> bool) (gm : list (string * nat)) :
  NoDup (map fst gm) -> NoDup (map fst (filter f gm)).
Proof.
  induction gm as [|[k m] gm IH]; simpl; [constructor|].
  intros H. inversion H as [|? ? Hk Hnd]; subst.
  destruct (f (k, m)); simpl; [|now apply IH].
  constructor; [|now apply IH]. intros Hin. apply Hk.
  apply in_map_iff in Hin as [[k' m'] [E Hin]]. simpl in E. subst k'.
  apply filter_In in Hin as [Hin _]. apply (in_map fst) in Hin. exact Hin.
Qed.

(** X10: the duplicate list names each key once, and a key is in it exactly
    when at least two items have that key (the identifier of the item,
    else its link). *)
Theorem duplicateGuids_twice (items : list Item.t) :
  NoDup (duplicateGuids items)
  /\ forall g, In g (duplicateGuids items) <-> 2 <= occurrences g items.
Proof.
  destruct (guidMap_from items [] (NoDup_nil _)) as [Hnd Hcount].
  fold (guidMap items) in Hnd, Hcount. simpl in Hcount.
  change (duplicateGuids items)
    with (map fst (filter (fun kc => Nat.ltb 1 (snd kc)) (guidMap items))).
  split; [now apply filter_keys_NoDup|].
  intros g. rewrite in_map_iff. split.
  - intros [[k n] [E Hin]]. simpl in E. subst k.
    apply filter_In in Hin as [Hin Hn]. simpl in Hn. apply Nat.ltb_lt in Hn.
    rewrite <- Hcount, (getCount_In _ _ _ Hnd Hin). exact Hn.
  - intros H. rewrite <- Hcount in H.
    exists (g, getCount g (guidMap items)). split; [reflexivity|].
    apply filter_In. split; [apply getCount_positive; lia|].
    simpl. apply Nat.ltb_lt. exact H.
Qed.


(** *** The counters of the image sources *)

Lemma scanItem_sources (st : Scan) (item : Item.t) :
  ImageSources.mediaContent (sources (scanItem st item))
  = ImageSources.mediaContent (sources st)
    + Nat.b2n (truthyValue (Item.mediaContent item))
  /\ ImageSources.enclosure (sources (scanItem st item))
     = ImageSources.enclosure (sources st) + Nat.b2n (imageEnclosure item)
  /\ ImageSources.imgTag (sources (scanItem st item))
     = ImageSources.imgTag (sources st)
       + Nat.b2n (includes (bestContent item) "<img")
  /\ ImageSources.openGraph (sources (scanItem st item))
     = ImageSources.openGraph (sources st)
       + Nat.b2n (includes (bestContent item) "og:image"
                  || includes (bestContent item)
                       ("property=" ++ Validator.dq ++ "og:image" ++ Validator.dq)%string).
Proof.
  unfold scanItem, scanOpenGraph, scanImgTag, scanEnclosure, scanMediaThumbnail,
    scanMediaContent.
  destruct st as [[mc mt en im og] urls].
  destruct (truthyValue (Item.mediaContent item));
    destruct (truthyValue (Item.mediaThumbnail item));
    destruct (imageEnclosure item);
    destruct (includes (bestContent item) "<img");
    destruct (includes (bestContent item) "og:image"
              || includes (bestContent item)
                   ("property=" ++ Validator.dq ++ "og:image" ++ Validator.dq)%string);
    cbn [sources ImageSources.mediaContent ImageSources.enclosure
         ImageSources.imgTag ImageSources.openGraph ImageSources.mediaThumbnail
         Nat.b2n];
    try destruct (Nat.eqb mt 0);
    cbn [sources ImageSources.mediaContent ImageSources.enclosure
         ImageSources.imgTag ImageSources.openGraph ImageSources.mediaThumbnail];
    repeat split; lia.
Qed.

Lemma length_filter_cons {A : Type} (f : A -> bool) (x : A) (l : list A) :
  List.length (filter f (x :: l)) = Nat.b2n (f x) + List.length (filter f l).
Proof. simpl. now destruct (f x). Qed.

Lemma scanItems_sources (items : list Item.t) (st : Scan) :
  let final := sources (fold_left scanItem items st) in
  ImageSources.mediaContent final
  = ImageSources.mediaContent (sources st)
    + List.length (filter (fun item => truthyValue (Item.mediaContent item)) items)
  /\ ImageSources.enclosure final
     = ImageSources.enclosure (sources st) + List.length (filter imageEnclosure items)
  /\ ImageSources.imgTag final
     = ImageSources.imgTag (sources st)
       + List.length (filter (fun item => includes (bestContent item) "<img") items)
  /\ ImageSources.openGraph final
     = ImageSources.openGraph (sources st)
       + List.length
           (filter (fun item =>
                      includes (bestContent item) "og:image"
                      || includes (bestContent item)
                           ("property=" ++ Validator.dq ++ "og:image" ++ Validator.dq)%string)
                   items).
Proof.
  revert st. induction items as [|item items IH]; intros st.
  - simpl. repeat split; lia.
  - cbn [fold_left]. destruct (IH (scanItem st item)) as [H1 [H2 [H3 H4]]].
    destruct (scanItem_sources st item) as [S1 [S2 [S3 S4]]].
    cbv zeta. rewrite H1, H2, H3, H4, S1, S2, S3, S4, !length_filter_cons.
    repeat split; lia.
Qed.

Lemma scanRawThumbnails_others (xmlContent : string) :
  ImageSources.mediaContent (sources (scanRawThumbnails xmlContent)) = 0
  /\ ImageSources.enclosure (sources (scanRawThumbnails xmlContent)) = 0
  /\ ImageSources.imgTag (sources (scanRawThumbnails xmlContent)) = 0
  /\ ImageSources.openGraph (sources (scanRawThumbnails xmlContent)) = 0.
Proof.
  unfold scanRawThumbnails.
  destruct (Nat.ltb 0 (List.length (mediaThumbnailMatches xmlContent)));
    repeat split.
Qed.

Lemma append_assoc (a b c : string) : ((a ++ b) ++ c = a ++ (b ++ c))%string.
Proof. induction a as [|x a IH]; simpl; [reflexivity | now rewrite IH]. Qed.

(** The second test for Open Graph holds only when the first does. *)
Lemma openGraph_test (content : string) :
  includes content "og:image"
  || includes content ("property=" ++ Validator.dq ++ "og:image" ++ Validator.dq)%string
  = includes content "og:image".
Proof.
  destruct (includes content "og:image") eqn:E; [reflexivity|].
  simpl. apply not_true_is_false. intros H.
  apply StringFacts.includes_infix in H as [before [rest H]].
  assert (includes content "og:image" = true); [|congruence].
  apply StringFacts.includes_infix.
  exists (before ++ "property=" ++ Validator.dq)%string, (Validator.dq ++ rest)%string.
  rewrite H, !append_assoc. reflexivity.
Qed.

(** X11: four counters of the image sources count items: the items that
    expose the media content extension, the items with an image
    enclosure, the items whose best content holds an [img] tag, and the
    items whose best content holds [og:image]. *)
Theorem imageSources_count_items (xmlContent : string) (items : list Item.t) :
  let final := sources (scanImages xmlContent items) in
  ImageSources.mediaContent final
  = List.length (filter (fun item => truthyValue (Item.mediaContent item)) items)
  /\ ImageSources.enclosure final = List.length (filter imageEnclosure items)
  /\ ImageSources.imgTag final
     = List.length (filter (fun item => includes (bestContent item) "<img") items)
  /\ ImageSources.openGraph final
     = List.length (filter (fun item => includes (bestContent item) "og:image") items).
Proof.
  unfold scanImages.
  destruct (scanItems_sources items (scanRawThumbnails xmlContent)) as [H1 [H2 [H3 H4]]].
  destruct (scanRawThumbnails_others xmlContent) as [R1 [R2 [R3 R4]]].
  cbv zeta in *. rewrite H1, H2, H3, H4, R1, R2, R3, R4. repeat split.
  simpl. f_equal. apply filter_ext. intros item. apply openGraph_test.
Qed.

Lemma filter_none {A : Type} (f : A -> bool) (l : list A) :
  (forall x, In x l -> f x = false) -> filter f l = [].
Proof.
  induction l as [|x l IH]; intros H; simpl; [reflexivity|].
  rewrite (H x (or_introl eq_refl)). apply IH. intros y Hy. apply H. now right.
Qed.

(** X12: when the flag says that there is no featured image, no item was
    counted for the media content extension or for an image enclosure, and
    the thumbnail counter is the number of thumbnail tags of the raw
    text. *)
Theorem no_featured_image_counters (xmlContent : string) (items : list Item.t) :
  hasFeaturedImage items = false ->
  let final := sources (scanImages xmlContent items) in
  ImageSources.mediaContent final = 0
  /\ ImageSources.enclosure final = 0
  /\ ImageSources.mediaThumbnail final
     = List.length (mediaThumbnailMatches xmlContent).
Proof.
  intros Hflag.
  assert (Hnone : forall item, In item items ->
            truthyValue (Item.mediaContent item) = false
            /\ truthyValue (Item.mediaThumbnail item) = false
            /\ imageEnclosure item = false).
  { intros item Hin.
    destruct (truthyValue (Item.mediaContent item)) eqn:E1;
      [assert (hasFeaturedImage items = true)
         by (apply (hasFeaturedImage_of_item items item Hin); auto); congruence|].
    destruct (truthyValue (Item.mediaThumbnail item)) eqn:E2;
      [assert (hasFeaturedImage items = true)
         by (apply (hasFeaturedImage_of_item items item Hin); auto); congruence|].
    destruct (imageEnclosure item) eqn:E3;
      [assert (hasFeaturedImage items = true)
         by (apply (hasFeaturedImage_of_item items item Hin); auto); congruence|].
    auto. }
  unfold scanImages.
  destruct (scanItems_sources items (scanRawThumbnails xmlContent)) as [H1 [H2 _]].
  destruct (scanRawThumbnails_others xmlContent) as [R1 [R2 _]].
  cbv zeta in *. rewrite H1, H2, R1, R2.
  rewrite !filter_none by (intros item Hin; apply (Hnone item Hin)).
  split; [reflexivity|]. split; [reflexivity|].
  rewrite ImageFacts.scanItems_thumbnail, ImageFacts.scanRawThumbnails_thumbnail.
  replace (existsb (fun item => truthyValue (Item.mediaThumbnail item)) items)
    with false.
  - now destruct (Nat.eqb (List.length (mediaThumbnailMatches xmlContent)) 0) eqn:E;
      [apply Nat.eqb_eq in E|].
  - symmetry. apply not_true_is_false. rewrite existsb_exists.
    intros [item [Hin Ht]]. rewrite (proj1 (proj2 (Hnone item Hin))) in Ht.
    discriminate.
Qed.


(** *** The sample URLs *)










(** *** The stripped content *)

Lemma withoutTags_open (s : string) :
  Spec.closingIndex s = None -> Spec.withoutTags false s = s.
Proof.
  induction s as [|a t IH]; [reflexivity|]. cbn [Spec.closingIndex Spec.withoutTags].
  destruct (Ascii.eqb a ">"); [discriminate|].
  destruct (Spec.closingIndex t); [discriminate|]. intros _.
  rewrite IH by reflexivity. now destruct (Ascii.eqb a "<").
Qed.

Lemma withoutTags_idempotent (s : string) (inTag : bool) :
  Spec.withoutTags false (Spec.withoutTags inTag s) = Spec.withoutTags inTag s.
Proof.
  revert inTag. induction s as [|a t IH]; intros inTag; [now destruct inTag|].
  cbn [Spec.withoutTags]. destruct inTag.
  - destruct (Ascii.eqb a ">"); apply IH.
  - destruct (Ascii.eqb a "<") eqn:E.
    + destruct (Spec.closingIndex t) eqn:C; [apply IH|].
      rewrite (withoutTags_open t C). cbn [Spec.withoutTags]. rewrite E, C.
      now rewrite (withoutTags_open t C).
    + cbn [Spec.withoutTags]. rewrite E, IH.
      now destruct (Spec.closingIndex (Spec.withoutTags false t)).
Qed.

Lemma withoutTags_length (s : string) (inTag : bool) :
  String.length (Spec.withoutTags inTag s) <= String.length s.
Proof.
  revert inTag. induction s as [|a t IH]; intros inTag; [now destruct inTag|].
  cbn [Spec.withoutTags String.length]. destruct inTag.
  - destruct (Ascii.eqb a ">"); [specialize (IH false) | specialize (IH true)]; lia.
  - destruct (Ascii.eqb a "<"), (Spec.closingIndex t); cbn [String.length];
      try (specialize (IH false); lia); specialize (IH true); lia.
Qed.

Lemma withoutTags_no_tag (s : string) (inTag : bool) :
  exec false anyTag (Spec.withoutTags inTag s) = None.
Proof.
  assert (Hopen : forall u, Spec.closingIndex u = None -> exec false anyTag u = None).
  { induction u as [|a u IHu]; [reflexivity|]. cbn [Spec.closingIndex exec].
    destruct (Ascii.eqb a ">"); [discriminate|].
    destruct (Spec.closingIndex u) eqn:C; [discriminate|]. intros _.
    rewrite ContentFacts.matchHere_anyTag, C.
    destruct (Ascii.eqb a "<"); now apply IHu. }
  revert inTag. induction s as [|a t IH]; intros inTag; [now destruct inTag|].
  cbn [Spec.withoutTags]. destruct inTag.
  - destruct (Ascii.eqb a ">"); apply IH.
  - destruct (Ascii.eqb a "<") eqn:E.
    + destruct (Spec.closingIndex t) eqn:C; [apply IH|].
      rewrite (withoutTags_open t C). apply Hopen.
      cbn [Spec.closingIndex]. rewrite C.
      destruct (Ascii.eqb a ">") eqn:E'; [|reflexivity].
      apply Ascii.eqb_eq in E. apply Ascii.eqb_eq in E'. congruence.
    + cbn [exec]. rewrite ContentFacts.matchHere_anyTag, E. apply IH.
Qed.

(** X14: the content stripped of its tags holds no tag any more, stripping it
    again changes nothing, and it is never longer than the content. *)
Theorem stripTags_complete (content : string) :
  exec false anyTag (stripTags content) = None
  /\ stripTags (stripTags content) = stripTags content
  /\ String.length (stripTags content) <= String.length content.
Proof.
  rewrite !ContentFacts.stripTags_withoutTags.
  split; [apply withoutTags_no_tag|].
  split; [apply withoutTags_idempotent | apply withoutTags_length].
Qed.

(** The Atom feed whose entry has an image in its content only. *)
Lemma no_featured_image_counters_witness :
  hasFeaturedImage (Feed.items Samples.atomFeed) = false
  /\ let final := sources (scanImages Samples.atomDocument (Feed.items Samples.atomFeed)) in
     ImageSources.mediaContent final = 0
     /\ ImageSources.enclosure final = 0
     /\ ImageSources.mediaThumbnail final
        = List.length (mediaThumbnailMatches Samples.atomDocument).
Proof.
  split; [reflexivity|].
  exact (no_featured_image_counters Samples.atomDocument
           (Feed.items Samples.atomFeed) eq_refl).
Defined.

End AnalysisFacts.

(** ** The handler *)

Module HandlerFacts.
Import JsString JsNumber Validator Analysis Temporal Spec NumberFacts SortFacts
       TemporalFacts Samples.

Section WithDate.
Variable parseDate : string -> option Z.
Variable formatDate : Z -> string.

(** *** The last update *)

(** The loop keeps the greatest of the timestamps that parse. *)
Lemma latestDate_of_parsable (items : list Item.t) :
  parsable parseDate items <> [] ->
  latestDate parseDate items = Some (latest (parsable parseDate items)).
Proof.
  intros Hne.
  destruct (latestDate_greatest parseDate items) as [[He _]|[m [Hr [Hin Hall]]]];
    [contradiction|].
  rewrite Hr. f_equal.
  destruct (latest_greatest _ Hne) as [Hin' Hall'].
  now apply (greatest_unique (parsable parseDate items)).
Qed.

(** X15: when a timestamp parses, the last update is the rendering of the
    latest parsable timestamp of the whole feed, whatever the position of
    its item. *)
Theorem lastUpdate_latest (items : list Item.t) :
  parsable parseDate items <> [] ->
  latestDate parseDate items = Some (latest (parsable parseDate items))
  /\ lastUpdate parseDate formatDate items
     = Some (formatDate (latest (parsable parseDate items))).
Proof.
  intros Hne. pose proof (latestDate_of_parsable items Hne) as H.
  split; [exact H|]. unfold lastUpdate. rewrite H.
  destruct items; [now elim Hne | reflexivity].
Qed.

(** X16: whenever a post frequency is reported, a last update is reported
    too, and it is the rendering of a parsed date. *)
Theorem postFrequency_with_lastUpdate (items : list Item.t) (label : string) :
  postFrequency parseDate items = Some label ->
  exists t, In t (parsable parseDate items)
            /\ lastUpdate parseDate formatDate items = Some (formatDate t).
Proof.
  rewrite postFrequency_sorted. intros H.
  destruct (Nat.ltb 1 (List.length (parsable parseDate items))) eqn:E; [|discriminate].
  apply Nat.ltb_lt in E.
  assert (Hne : parsable parseDate items <> [])
    by (destruct (parsable parseDate items); [simpl in E; lia | discriminate]).
  exists (latest (parsable parseDate items)). split.
  - apply (latest_greatest _ Hne).
  - unfold lastUpdate. rewrite (latestDate_of_parsable items Hne).
    destruct items; [now elim Hne | reflexivity].
Qed.

(** *** The comparator of the sort *)

(** X17: on the dates of two items, the comparator of the sort is negative
    exactly when the first date is the earlier one and positive exactly
    when it is the later one: the subtraction of numbers keeps the sign of
    the difference of the time values. *)
Theorem compareDates_sign (i j : Item.t) (a b : Z) :
  itemDate parseDate i = Some a ->
  itemDate parseDate j = Some b ->
  ltb (compareDates a b) (ofZ 0) = (a <? b)%Z
  /\ ltb (ofZ 0) (compareDates a b) = (b <? a)%Z.
Proof.
  intros Ha Hb. unfold compareDates.
  apply comparator_sign; eapply itemDate_bounded; eassumption.
Qed.

(** *** Posts of the same instant *)

Lemma same_latest_earliest (t : Z) (dates : list Z) :
  dates <> [] -> Forall (fun d => d = t) dates ->
  latest dates = t /\ earliest dates = t.
Proof.
  intros Hne Hall. rewrite Forall_forall in Hall. split.
  - apply Hall. apply (latest_greatest _ Hne).
  - apply Hall. apply (earliest_least _ Hne).
Qed.

(** X18: when at least two timestamps parse and all of them are the same
    instant, the post frequency is "Multiple posts per day". *)
Theorem postFrequency_same_instant (items : list Item.t) (t : Z) :
  2 <= List.length (parsable parseDate items) ->
  (Z.of_nat (List.length items) < 2 ^ 32)%Z ->
  Forall (fun d => d = t) (parsable parseDate items) ->
  postFrequency parseDate items = Some "Multiple posts per day".
Proof.
  intros Hlen Hbound Hall.
  assert (Hne : parsable parseDate items <> [])
    by (destruct (parsable parseDate items); [simpl in Hlen; lia | discriminate]).
  rewrite postFrequency_sorted.
  replace (Nat.ltb 1 (List.length (parsable parseDate items))) with true
    by (symmetry; apply Nat.ltb_lt; lia).
  rewrite averageDays_parsable by (exact Hne || lia).
  unfold averageInterval.
  destruct (same_latest_earliest t _ Hne Hall) as [-> ->].
  rewrite Z.sub_diag.
  pose proof (parsable_length parseDate items) as Hl.
  destruct (ofZ_finite (Z.of_nat (List.length (parsable parseDate items)) - 1))
    as [m [e ->]]; [lia|].
  reflexivity.
Qed.

(** *** The responses *)




(** X20: a feed is analysed only when the document is valid and the parser
    gave a feed; the report then counts all the items of the feed and has
    a title that is not empty. *)
Theorem analysed_response (xmlContent url : string) (parse : ParseOutcome)
        (report : Report.t) :
  POST parseDate formatDate xmlContent url parse = Analysed report ->
  isValid (validateFeedXML xmlContent url) = true
  /\ exists feed,
      parse = Parsed feed
      /\ Report.itemCount report = List.length (Feed.items feed)
      /\ Report.title report <> EmptyString
      /\ (truthy (Feed.title feed) = true -> Feed.title feed = Some (Report.title report))
      /\ (truthy (Feed.title feed) = false -> Report.title report = "Untitled Feed").
Proof.
  unfold POST.
  destruct (isValid (validateFeedXML xmlContent url)); cbn [negb]; [|discriminate].
  destruct parse as [feed|message]; [|discriminate].
  intros [= <-]. split; [reflexivity|]. exists feed. split; [reflexivity|].
  unfold analyse. cbn [Report.itemCount Report.title]. split; [reflexivity|].
  destruct (Feed.title feed) as [[|c t]|]; cbn [truthy];
    (split; [discriminate|]); split; intros H; try discriminate; reflexivity.
Qed.

End WithDate.

(** Five daily items. *)
Lemma lastUpdate_latest_witness :
  parsable Examples.isoDate fiveDaily <> []
  /\ latestDate Examples.isoDate fiveDaily
     = Some (latest (parsable Examples.isoDate fiveDaily))
  /\ lastUpdate Examples.isoDate Examples.plainDate fiveDaily
     = Some (Examples.plainDate (latest (parsable Examples.isoDate fiveDaily))).
Proof.
  assert (H : parsable Examples.isoDate fiveDaily <> []) by (vm_compute; discriminate).
  split; [exact H|].
  exact (lastUpdate_latest Examples.isoDate Examples.plainDate fiveDaily H).
Defined.

Lemma postFrequency_with_lastUpdate_witness :
  postFrequency Examples.isoDate fiveDaily = Some "7 posts per week"
  /\ exists t, In t (parsable Examples.isoDate fiveDaily)
               /\ lastUpdate Examples.isoDate Examples.plainDate fiveDaily
                  = Some (Examples.plainDate t).
Proof.
  assert (H : postFrequency Examples.isoDate fiveDaily = Some "7 posts per week")
    by (vm_compute; reflexivity).
  split; [exact H|].
  exact (postFrequency_with_lastUpdate Examples.isoDate Examples.plainDate
           fiveDaily "7 posts per week" H).
Defined.

(** Two consecutive days. *)
Lemma compareDates_sign_witness :
  itemDate Examples.isoDate (dated "2024-01-01") = Some 1704067200000%Z
  /\ itemDate Examples.isoDate (dated "2024-01-02") = Some 1704153600000%Z
  /\ ltb (compareDates 1704067200000 1704153600000) (ofZ 0)
     = (1704067200000 <? 1704153600000)%Z
  /\ ltb (ofZ 0) (compareDates 1704067200000 1704153600000)
     = (1704153600000 <? 1704067200000)%Z.
Proof.
  split; [reflexivity|]. split; [reflexivity|].
  exact (compareDates_sign Examples.isoDate (dated "2024-01-01") (dated "2024-01-02")
           1704067200000 1704153600000 eq_refl eq_refl).
Defined.

(** Two items of the same day. *)
Lemma postFrequency_same_instant_witness :
  2 <= List.length (parsable Examples.isoDate sameDay)
  /\ (Z.of_nat (List.length sameDay) < 2 ^ 32)%Z
  /\ Forall (fun d => d = 1704412800000%Z) (parsable Examples.isoDate sameDay)
  /\ postFrequency Examples.isoDate sameDay = Some "Multiple posts per day".
Proof.
  assert (H1 : 2 <= List.length (parsable Examples.isoDate sameDay))
    by (vm_compute; constructor).
  assert (H2 : (Z.of_nat (List.length sameDay) < 2 ^ 32)%Z) by reflexivity.
  assert (H3 : Forall (fun d => d = 1704412800000%Z) (parsable Examples.isoDate sameDay))
    by (vm_compute; repeat constructor).
  split; [exact H1|]. split; [exact H2|]. split; [exact H3|].
  exact (postFrequency_same_instant Examples.isoDate sameDay 1704412800000 H1 H2 H3).
Defined.


(** The Atom feed of the samples. *)
Lemma analysed_response_witness :
  POST Examples.isoDate Examples.plainDate atomDocument url (Parsed atomFeed)
  = Analysed (analyse Examples.isoDate Examples.plainDate atomDocument atomFeed)
  /\ isValid (validateFeedXML atomDocument url) = true
  /\ exists feed,
      Parsed atomFeed = Parsed feed
      /\ Report.itemCount
           (analyse Examples.isoDate Examples.plainDate atomDocument atomFeed)
         = List.length (Feed.items feed)
      /\ Report.title
           (analyse Examples.isoDate Examples.plainDate atomDocument atomFeed)
         <> EmptyString
      /\ (truthy (Feed.title feed) = true ->
          Feed.title feed
          = Some (Report.title
                    (analyse Examples.isoDate Examples.plainDate atomDocument atomFeed)))
      /\ (truthy (Feed.title feed) = false ->
          Report.title
            (analyse Examples.isoDate Examples.plainDate atomDocument atomFeed)
          = "Untitled Feed").
Proof.
  assert (H : POST Examples.isoDate Examples.plainDate atomDocument url (Parsed atomFeed)
              = Analysed (analyse Examples.isoDate Examples.plainDate atomDocument atomFeed))
    by (vm_compute; reflexivity).
  split; [exact H|].
  exact (analysed_response Examples.isoDate Examples.plainDate atomDocument url
           (Parsed atomFeed) _ H).
Defined.

End HandlerFacts.
